(** * PyAutoArray: masks, zoom regions and regions, verified against the source

    A shallow embedding of [autoarray/structures/mask.py] and of the helpers
    it relies on.

    Conventions of the embedding:
    - a Python [int] is a [Z]; a finite Python [float] is the rational [Q] it
      denotes, and a rational that is not a double stands for the double
      nearest to it, as a literal would.  In the sub-grid attributes
      ([int(sub_size ** 2.0)], [1.0 / sub_length]) and in
      [pixel_coordinates_from_arcsec_coordinates] every operation is rounded
      to double precision, see [Double].  Where the code only stores,
      compares or rescales floats (pixel scales, origins, kernel scales) the
      rational is kept as it is, and so is the half of an integer in
      [_zoom_region], which a double holds exactly for every array size;
    - a 2D boolean numpy array is a list of rows, [true] meaning masked;
    - a call that can raise returns a [result]: [Return v] or [Raise e];
    - an attribute that an object may lack, or that holds [None], is an
      [option]. *)

From Stdlib Require Import String ZArith QArith Qround Qabs Qreduction List Bool Lia.
From Stdlib Require Import Qfield.
From Stdlib Require Strings.Byte.
Import ListNotations.

Open Scope list_scope.
Open Scope Z_scope.

(** ** Exceptions and results *)

Module Exc.

Inductive exception : Type :=
| MaskException (msg : string)
| RegionException
| ZeroDivisionError
| OverflowError
| ValueError
| TypeError
| AttributeError
| IndexError.

Inductive result (A : Type) : Type :=
| Return (a : A)
| Raise (e : exception).

Arguments Return {A} a.
Arguments Raise {A} e.

Definition bind {A B : Type} (r : result A) (k : A -> result B) : result B :=
  match r with
  | Return a => k a
  | Raise e => Raise e
  end.

End Exc.

Export Exc.

Notation "x <- c1 ;; c2" := (bind c1 (fun x => c2))
  (at level 61, c1 at next level, right associativity).

(** ** Two-dimensional boolean arrays *)

Module Ndarray.

Definition ndarray2 : Type := list (list bool).

(** [a.shape].  An array without rows is the empty list, and its second
    dimension is then taken to be 0. *)
Definition shape (a : ndarray2) : Z * Z :=
  (Z.of_nat (length a), Z.of_nat (length (hd [] a))).

(** [a[y, x]] for an index pair that may lie outside the array. *)
Definition get (a : ndarray2) (y x : Z) : option bool :=
  if (0 <=? y) && (0 <=? x)
  then match nth_error a (Z.to_nat y) with
       | Some row => nth_error row (Z.to_nat x)
       | None => None
       end
  else None.

(** [np.full(fill_value=v, shape=(rows, cols))] *)
Definition full (v : bool) (shp : Z * Z) : ndarray2 :=
  repeat (repeat v (Z.to_nat (snd shp))) (Z.to_nat (fst shp)).

Fixpoint set_nth {A : Type} (l : list A) (n : nat) (v : A) : option (list A) :=
  match l, n with
  | [], _ => None
  | _ :: t, O => Some (v :: t)
  | h :: t, S n' =>
      match set_nth t n' v with
      | Some t' => Some (h :: t')
      | None => None
      end
  end.

(** [a[y, x] = v]; an index outside the array is an [IndexError]. *)
Definition set (a : ndarray2) (y x : nat) (v : bool) : result ndarray2 :=
  match nth_error a y with
  | None => Raise IndexError
  | Some row =>
      match set_nth row x v with
      | None => Raise IndexError
      | Some row' =>
          match set_nth a y row' with
          | Some a' => Return a'
          | None => Raise IndexError
          end
      end
  end.

(** [a[ys, xs] = v] for paired index arrays. *)
Fixpoint set_all (a : ndarray2) (idx : list (nat * nat)) (v : bool)
  : result ndarray2 :=
  match idx with
  | [] => Return a
  | (y, x) :: rest => a' <- set a y x v ;; set_all a' rest v
  end.

(** [table[idx]] for an index array [idx]. *)
Fixpoint take {A : Type} (table : list A) (idx : list nat) : result (list A) :=
  match idx with
  | [] => Return []
  | i :: rest =>
      match nth_error table i with
      | None => Raise IndexError
      | Some v => vs <- take table rest ;; Return (v :: vs)
      end
  end.

(** The positions of the [false] entries of one row, from column [x]. *)
Fixpoint where_row (y x : Z) (row : list bool) : list (Z * Z) :=
  match row with
  | [] => []
  | b :: t => (if b then [] else [(y, x)]) ++ where_row y (x + 1) t
  end.

Fixpoint where_rows (y : Z) (a : ndarray2) : list (Z * Z) :=
  match a with
  | [] => []
  | row :: t => where_row y 0 row ++ where_rows (y + 1) t
  end.

(** [np.where(np.invert(a))]: the (row, column) index of every [False]
    entry, in row-major order. *)
Definition where_false (a : ndarray2) : list (Z * Z) := where_rows 0 a.

End Ndarray.

Export Ndarray.

(** ** Double-precision arithmetic

    Python floats are IEEE 754 binary64 numbers: 53 significant bits, the
    smallest positive value [2^-1074], round to nearest with ties to even. *)

Module Double.

(** The integer nearest to [n / d] ([d > 0]), ties to the even one. *)
Definition round_half_even (n d : Z) : Z :=
  let q := n / d in
  let r := n mod d in
  if 2 * r <? d then q
  else if d <? 2 * r then q + 1
  else if Z.even q then q else q + 1.

(** The exponent [e] with [2^e <= a / d < 2^(e+1)], for [a, d > 0]. *)
Definition floor_log2 (a d : Z) : Z :=
  let e0 := Z.log2 a - Z.log2 d in
  if (if 0 <=? e0 then 2 ^ e0 * d <=? a else d <=? 2 ^ (- e0) * a)
  then e0 else e0 - 1.

(** The double nearest to [a / d], for [a, d > 0], with an exponent that is
    not bounded above: a multiple of [2^u], where [u] is the exponent of the
    last of the 53 bits, not below -1074. *)
Definition round_positive (a d : Z) : Q :=
  let u := Z.max (floor_log2 a d - 52) (-1074) in
  if 0 <=? u then inject_Z (round_half_even a (d * 2 ^ u) * 2 ^ u)
  else Qred (round_half_even (a * 2 ^ (- u)) d # Z.to_pos (2 ^ (- u))).

(** The double nearest to [q]. *)
Definition fl (q : Q) : Q :=
  match Qnum q with
  | 0 => 0%Q
  | Zpos a => round_positive (Zpos a) (Zpos (Qden q))
  | Zneg a => (- round_positive (Zpos a) (Zpos (Qden q)))%Q
  end.

(** A result of this magnitude rounds to an infinity: it reaches the
    midpoint between the largest double and [2^1024]. *)
Definition overflows (q : Q) : bool :=
  Qle_bool (inject_Z (2 ^ 1024 - 2 ^ 970)) (Qabs q).

(** [float(n)] for an [int]: an [int] too large for a double is an
    [OverflowError]. *)
Definition of_int (n : Z) : result Q :=
  if overflows (inject_Z n) then Raise OverflowError
  else Return (fl (inject_Z n)).

(** [x ** 2.0] for a float [x].  The [pow] of the C library is taken to
    return the correctly rounded square; a result out of range is an
    [OverflowError]. *)
Definition square (x : Q) : result Q :=
  if overflows (x * x) then Raise OverflowError
  else Return (fl (x * x)).

(** [int(n ** 2.0)] for an [int] [n]. *)
Definition int_square (n : Z) : result Z :=
  x <- of_int n ;;
  p <- square x ;;
  Return (Z.quot (Qnum p) (Zpos (Qden p))).

(** [1.0 / n] for an [int] [n]. *)
Definition one_over (n : Z) : result Q :=
  x <- of_int n ;;
  if Qeq_bool x 0 then Raise ZeroDivisionError
  else Return (fl (1 / x)).

(** The value of a float expression: a finite double or an infinity.  The
    expressions modelled with it add finite terms to one running value, so
    that no NaN arises and the sign of an infinity does not matter. *)
Inductive value : Type :=
| Finite (q : Q)
| Infinite.

Definition round (q : Q) : value :=
  if overflows q then Infinite else Finite (fl q).

(** [a + b] and [a - b] for a running value [a] and a finite float [b]. *)
Definition add (a : value) (b : Q) : value :=
  match a with
  | Finite x => round (x + fl b)
  | Infinite => Infinite
  end.

Definition sub (a : value) (b : Q) : value :=
  match a with
  | Finite x => round (x - fl b)
  | Infinite => Infinite
  end.

(** [a / b] for a running value [a] and a finite float [b]: the rounded
    quotient, and a [ZeroDivisionError] when [b] is zero. *)
Definition quotient (a : value) (b : Q) : value :=
  match a with
  | Finite x => round (x / fl b)
  | Infinite => Infinite
  end.

Definition div (a : value) (b : Q) : result value :=
  if Qeq_bool (fl b) 0 then Raise ZeroDivisionError
  else Return (quotient a b).

(** [a / 2] for the float of an [int], as in [float(n) / 2]. *)
Definition half (x : Q) : Q := fl (x / 2).

(** [int(a)]: truncation towards zero; an infinity is an [OverflowError]. *)
Definition to_int (a : value) : result Z :=
  match a with
  | Finite x => Return (Z.quot (Qnum x) (Zpos (Qden x)))
  | Infinite => Raise OverflowError
  end.

End Double.

(** ** The mask classes of [mask.py] *)

Module Mask.

Inductive mask_class : Type :=
| AbstractMask
| PixelMask
| AbstractSubMask
| PixelSubMask
| ScaledMask.

(** A mask object: the boolean buffer and the attributes that
    [__array_finalize__] and the constructors attach to it.  [pixel_scales]
    and [origin] hold a pair or [None]; [sub_size], [sub_length] and
    [sub_fraction] are absent ([None] here) on a mask without sub-grid. *)
Record mask : Type := mkMask {
  cls : mask_class;
  array : ndarray2;
  pixel_scales : option (Q * Q);
  sub_size : option Z;
  sub_length : option Z;
  sub_fraction : option Q;
  origin : option (Q * Q)
}.

(** What a constructor receives as [array_2d]: a plain array or a mask. *)
Inductive array_arg : Type :=
| Plain (a : ndarray2)
| OfMask (m : mask).

Definition psf_msg : string := "psf_size of exterior region must be odd".

Definition pixel_scale_msg : string :=
  "A pixel scale supplied to a ScaledMask (and therefore the Image) is zero or negative".

Definition two_centres_msg : string :=
  "You have supplied two centres (pixels and arc-seconds) to the resize hyperarray function".

(** [AbstractMask.__array_finalize__], run by [array_2d.view(cls)]: the
    attributes are copied from [obj] when it has them. *)
Definition __array_finalize__ (c : mask_class) (obj : array_arg) : result mask :=
  match obj with
  | Plain a => Return (mkMask c a None None None None None)
  | OfMask m =>
      match sub_size m with
      | None =>
          Return (mkMask c (array m) (pixel_scales m) None None None (origin m))
      | Some s =>
          sub_length0 <- Double.int_square s ;;
          match sub_length m with
          | None => Raise AttributeError
          | Some l =>
              sub_fraction0 <- Double.one_over l ;;
              Return (mkMask c (array m) (pixel_scales m)
                        (Some s) (Some sub_length0) (Some sub_fraction0)
                        (origin m))
          end
      end
  end.

(** [AbstractMask.__new__] (and [PixelMask.__new__], which only calls it). *)
Definition AbstractMask_new (c : mask_class) (array_2d : array_arg) : result mask :=
  __array_finalize__ c array_2d.

(** [AbstractSubMask.__new__] (and [PixelSubMask.__new__]):
    [sub_length = int(sub_size ** 2.0)], [sub_fraction = 1.0 / sub_length]. *)
Definition AbstractSubMask_new (c : mask_class) (array_2d : array_arg)
    (sub_size0 : Z) : result mask :=
  obj <- AbstractMask_new c array_2d ;;
  sub_length0 <- Double.int_square sub_size0 ;;
  sub_fraction0 <- Double.one_over sub_length0 ;;
  Return (mkMask (cls obj) (array obj) (pixel_scales obj)
            (Some sub_size0) (Some sub_length0) (Some sub_fraction0)
            (origin obj)).

(** The default of the [origin] keyword of [ScaledMask.__new__]. *)
Definition default_origin : option (Q * Q) := Some (0%Q, 0%Q).

(** [ScaledMask.__new__] *)
Definition ScaledMask_new (c : mask_class) (array_2d : array_arg)
    (pixel_scales0 : option (Q * Q)) (sub_size0 : Z)
    (origin0 : option (Q * Q)) : result mask :=
  obj <- AbstractSubMask_new c array_2d sub_size0 ;;
  match pixel_scales0 with
  | None => Raise TypeError
  | Some (sy, sx) =>
      if Qle_bool sy 0 || Qle_bool sx 0
      then Raise (MaskException pixel_scale_msg)
      else Return (mkMask (cls obj) (array obj) pixel_scales0 (sub_size obj)
                     (sub_length obj) (sub_fraction obj) origin0)
  end.

(** [self.__class__(array_2d=..., pixel_scales=..., sub_size=..., origin=...)]
    as the methods of [mask.py] call it.  [origin0] is [None] when the keyword
    is not passed.  The pixel-mask classes swallow the keywords in
    [*args, **kwargs]. *)
Definition class_call (c : mask_class) (array_2d : array_arg)
    (pixel_scales0 : option (Q * Q)) (sub_size0 : Z)
    (origin0 : option (option (Q * Q))) : result mask :=
  match c with
  | AbstractMask | PixelMask => AbstractMask_new c array_2d
  | AbstractSubMask | PixelSubMask => AbstractSubMask_new c array_2d sub_size0
  | ScaledMask =>
      ScaledMask_new c array_2d pixel_scales0 sub_size0
        (match origin0 with Some o => o | None => default_origin end)
  end.

(** A Scaled Mask is an object that [ScaledMask(...)] returned. *)
Definition is_ScaledMask (m : mask) : Prop :=
  exists array_2d ps ss o, ScaledMask_new ScaledMask array_2d ps ss o = Return m.


(** [ScaledMask.unmasked_from_shape_pixel_scales_and_sub_size] *)
Definition unmasked_from_shape_pixel_scales_and_sub_size (shp : Z * Z)
    (pixel_scales0 : option (Q * Q)) (sub_size0 : Z) (origin0 : option (Q * Q))
    (invert : bool) : result mask :=
  let mask0 := full false shp in
  let mask0 := if invert then map (map negb) mask0 else mask0 in
  ScaledMask_new ScaledMask (Plain mask0) pixel_scales0 sub_size0 origin0.

(** ** The methods of the mask classes

    The helpers of [mask_util], [array_util], [binning_util] and [grid_util]
    are not among the sources at hand.  The methods take them as parameters:
    pure functions on arrays, as the specification describes them. *)

Section Methods.

Variable blurring_mask_from_mask_and_kernel_shape : ndarray2 -> Z * Z -> ndarray2.
Variable edge_1d_indexes_from_mask : ndarray2 -> list nat.
Variable border_1d_indexes_from_mask : ndarray2 -> list nat.
Variable sub_mask_2d_index_for_sub_mask_1d_index_from_mask_and_sub_size :
  ndarray2 -> Z -> list (nat * nat).
Variable resized_array_2d_from_array_2d_and_resized_shape :
  ndarray2 -> Z * Z -> Z * Z -> ndarray2.
Variable binned_up_mask_from_mask_2d_and_bin_up_factor : ndarray2 -> Z -> ndarray2.
Variable grid_1d_from_shape_pixel_scales_sub_size_and_origin :
  Z * Z -> Q * Q -> Z -> Q * Q -> list (Q * Q).

(** Reading an attribute that holds [None] and subscripting it. *)
Definition subscript {A : Type} (attr : option A) : result A :=
  match attr with
  | Some v => Return v
  | None => Raise TypeError
  end.

(** Reading an attribute that the object may lack. *)
Definition getattr {A : Type} (attr : option A) : result A :=
  match attr with
  | Some v => Return v
  | None => Raise AttributeError
  end.

(** Python's [int(x)] on a float: truncation towards zero. *)
Definition int (x : Q) : Z := Z.quot (Qnum x) (Zpos (Qden x)).


(** [central_pixel_coordinates]:
    [float(self.shape[0] - 1) / 2, float(self.shape[1] - 1) / 2]. *)
Definition central_pixel_coordinates (self : mask) : result (Q * Q) :=
  let shp := shape (array self) in
  cy <- Double.of_int (fst shp - 1) ;;
  cx <- Double.of_int (snd shp - 1) ;;
  Return (Double.half cy, Double.half cx).

(** [blurring_mask_from_kernel_shape].  The memoizer around it only caches
    returned masks and is left out. *)
Definition blurring_mask_from_kernel_shape (self : mask) (kernel_shape : Z * Z)
  : result mask :=
  if (fst kernel_shape mod 2 =? 0) || (snd kernel_shape mod 2 =? 0)
  then Raise (MaskException psf_msg)
  else
    let blurring_mask :=
      blurring_mask_from_mask_and_kernel_shape (array self) kernel_shape in
    class_call (cls self) (Plain blurring_mask) (pixel_scales self) 1 None.

Definition _mask_2d_index_for_mask_1d_index (self : mask) : list (nat * nat) :=
  sub_mask_2d_index_for_sub_mask_1d_index_from_mask_and_sub_size (array self) 1.

Definition _edge_1d_indexes (self : mask) : list nat :=
  edge_1d_indexes_from_mask (array self).

Definition _edge_2d_indexes (self : mask) : result (list (nat * nat)) :=
  take (_mask_2d_index_for_mask_1d_index self) (_edge_1d_indexes self).

Definition _border_1d_indexes (self : mask) : list nat :=
  border_1d_indexes_from_mask (array self).

Definition _border_2d_indexes (self : mask) : result (list (nat * nat)) :=
  take (_mask_2d_index_for_mask_1d_index self) (_border_1d_indexes self).

(** [edge_mask] *)
Definition edge_mask (self : mask) : result mask :=
  idx <- _edge_2d_indexes self ;;
  mask0 <- set_all (full true (shape (array self))) idx false ;;
  class_call (cls self) (Plain mask0) (pixel_scales self) 1 (Some (origin self)).

(** [border_mask] *)
Definition border_mask (self : mask) : result mask :=
  idx <- _border_2d_indexes self ;;
  mask0 <- set_all (full true (shape (array self))) idx false ;;
  class_call (cls self) (Plain mask0) (pixel_scales self) 1 (Some (origin self)).

(** The float that [pixel_coordinates_from_arcsec_coordinates] passes to
    [int] for the row:
    [(-arcsec_coordinates[0] + origin[0]) / pixel_scales[0]
     + central_pixel_coordinates[0] + 0.5], each operation rounded. *)
Definition row_float (self : mask) (y : Q) : result Double.value :=
  o <- subscript (origin self) ;;
  let offset := Double.add (Double.Finite (- Double.fl y)) (fst o) in
  ps <- subscript (pixel_scales self) ;;
  q <- Double.div offset (fst ps) ;;
  c <- central_pixel_coordinates self ;;
  Return (Double.add (Double.add q (fst c)) (1 # 2)).

(** The float passed to [int] for the column:
    [(arcsec_coordinates[1] - origin[1]) / pixel_scales[1]
     + central_pixel_coordinates[1] + 0.5]. *)
Definition column_float (self : mask) (x : Q) : result Double.value :=
  o <- subscript (origin self) ;;
  let offset := Double.sub (Double.Finite (Double.fl x)) (snd o) in
  ps <- subscript (pixel_scales self) ;;
  q <- Double.div offset (snd ps) ;;
  c <- central_pixel_coordinates self ;;
  Return (Double.add (Double.add q (snd c)) (1 # 2)).

(** [pixel_coordinates_from_arcsec_coordinates] *)
Definition pixel_coordinates_from_arcsec_coordinates (self : mask)
    (arcsec_coordinates : Q * Q) : result (Z * Z) :=
  fy <- row_float self (fst arcsec_coordinates) ;;
  y <- Double.to_int fy ;;
  fx <- column_float self (snd arcsec_coordinates) ;;
  x <- Double.to_int fx ;;
  Return (y, x).

Definition Q_of_pixels (p : Z * Z) : Q * Q := (inject_Z (fst p), inject_Z (snd p)).

(** [ScaledMask.resized_mask_from_new_shape] *)
Definition resized_mask_from_new_shape (self : mask) (new_shape : Z * Z)
    (new_centre_pixels : option (Z * Z)) (new_centre_arcsec : option (Q * Q))
  : result mask :=
  new_centre <-
    match new_centre_pixels, new_centre_arcsec with
    | None, None => Return (-1, -1)
    | Some p, None => Return p
    | None, Some a => pixel_coordinates_from_arcsec_coordinates self a
    | Some _, Some _ => Raise (MaskException two_centres_msg)
    end ;;
  let resized_mask_2d :=
    resized_array_2d_from_array_2d_and_resized_shape
      (array self) new_shape new_centre in
  ss <- getattr (sub_size self) ;;
  class_call (cls self) (Plain resized_mask_2d) (pixel_scales self) ss
    (Some (Some (Q_of_pixels new_centre))).

(** [ScaledMask.binned_up_mask_from_bin_up_factor] *)
Definition binned_up_mask_from_bin_up_factor (self : mask) (bin_up_factor : Z)
  : result mask :=
  let binned_up_mask :=
    binned_up_mask_from_mask_2d_and_bin_up_factor (array self) bin_up_factor in
  ps <- subscript (pixel_scales self) ;;
  ss <- getattr (sub_size self) ;;
  class_call (cls self) (Plain binned_up_mask)
    (Some ((fst ps * inject_Z bin_up_factor)%Q,
           (snd ps * inject_Z bin_up_factor)%Q))
    ss (Some (origin self)).

(** [ScaledMask.unmasked_grid].  [mapping.grid_from_grid_1d] wraps the
    coordinate sequence in a grid structure; the sequence itself is kept. *)
Definition unmasked_grid (self : mask) : result (list (Q * Q)) :=
  ps <- subscript (pixel_scales self) ;;
  o <- subscript (origin self) ;;
  Return (grid_1d_from_shape_pixel_scales_sub_size_and_origin
            (shape (array self)) ps 1 o).

(** [np.amin] and [np.amax] of a non-empty sequence. *)
Definition amin (h : Z) (t : list Z) : Z := fold_right Z.min h t.
Definition amax (h : Z) (t : list Z) : Z := fold_right Z.max h t.

(** [ScaledMask._zoom_region] *)
Definition _zoom_region (self : mask) : result (list Z) :=
  match where_false (array self) with
  | [] => Raise ValueError
  | p :: rest =>
      let y0 := amin (fst p) (map fst rest) in
      let x0 := amin (snd p) (map snd rest) in
      let y1 := amax (fst p) (map fst rest) in
      let x1 := amax (snd p) (map snd rest) in
      let ylength := y1 - y0 in
      let xlength := x1 - x0 in
      if ylength >? xlength then
        let length_difference := ylength - xlength in
        let pad := int (inject_Z length_difference / 2)%Q in
        Return [y0; y1 + 1; x0 - pad; x1 + pad + 1]
      else if xlength >? ylength then
        let length_difference := xlength - ylength in
        let pad := int (inject_Z length_difference / 2)%Q in
        Return [y0 - pad; y1 + pad + 1; x0; x1 + 1]
      else Return [y0; y1 + 1; x0; x1 + 1]
  end.

End Methods.

End Mask.

(** ** Helpers and classes that are not among the sources

    [mask_util], [array_util], [binning_util], [grid_util] and the region
    class are used by the code above and by the tests, but their own code is
    not at hand.  Each definition below is modelled from the specification. *)

Module SpecModel.

Definition range (n : Z) : list Z := map Z.of_nat (seq 0 (Z.to_nat n)).

(** [f y x a[y, x]] at every position of [a]. *)
Definition imap2 (f : Z -> Z -> bool -> bool) (a : ndarray2) : ndarray2 :=
  map (fun yr => map (fun xb => f (fst yr) (fst xb) (snd xb))
                   (combine (range (Z.of_nat (length (snd yr)))) (snd yr)))
      (combine (range (Z.of_nat (length a))) a).

(** A position counts as masked when it holds [True] or lies outside the
    grid. *)
Definition masked_or_outside (a : ndarray2) (p : Z * Z) : bool :=
  match get a (fst p) (snd p) with
  | Some b => b
  | None => true
  end.

Definition neighbours4 (p : Z * Z) : list (Z * Z) :=
  [(fst p - 1, snd p); (fst p + 1, snd p); (fst p, snd p - 1); (fst p, snd p + 1)].

(** Modelled from the spec: the edge test behind the missing
    [mask_util.edge_1d_indexes_from_mask].  An unmasked pixel is an edge pixel
    iff at least one of its 4-connected neighbours is masked or lies outside
    the grid. *)
Definition is_edge (a : ndarray2) (p : Z * Z) : bool :=
  negb (masked_or_outside a p) && existsb (masked_or_outside a) (neighbours4 p).

(** The positions in [l] of the elements that satisfy [f], counted from [i]. *)
Fixpoint indexes_from (f : Z * Z -> bool) (i : nat) (l : list (Z * Z)) : list nat :=
  match l with
  | [] => []
  | p :: t => (if f p then [i] else []) ++ indexes_from f (S i) t
  end.

(** Modelled from the spec: the missing [mask_util.edge_1d_indexes_from_mask],
    the ordered index list of the edge pixels in the scan order of the
    unmasked pixels. *)
Definition edge_1d_indexes_from_mask (a : ndarray2) : list nat :=
  indexes_from (is_edge a) 0 (where_false a).

(** The exterior of the unmasked region is grown from outside the grid: a
    masked pixel joins it once one of its 4-connected neighbours lies outside
    the grid or is already part of it. *)
Definition exterior_at (ext : ndarray2) (p : Z * Z) : bool :=
  match get ext (fst p) (snd p) with
  | Some b => b
  | None => true
  end.

Definition grow (a ext : ndarray2) : ndarray2 :=
  imap2 (fun y x b => b && existsb (exterior_at ext) (neighbours4 (y, x))) a.

Fixpoint grow_n (n : nat) (a ext : ndarray2) : ndarray2 :=
  match n with
  | O => ext
  | S n' => grow_n n' a (grow a ext)
  end.

Definition exterior (a : ndarray2) : ndarray2 :=
  grow_n (length a * length (hd [] a)) a (full false (shape a)).

(** A pixel lies on the outer boundary when one of its 4-connected
    neighbours belongs to the exterior. *)
Definition on_outer_boundary (a : ndarray2) (p : Z * Z) : bool :=
  existsb (exterior_at (exterior a)) (neighbours4 p).

(** Modelled from the spec: the border test behind the missing
    [mask_util.border_1d_indexes_from_mask].  An unmasked pixel is a border
    pixel iff it is an edge pixel and it lies on the outer topological
    boundary reachable from outside the unmasked region. *)
Definition is_border (a : ndarray2) (p : Z * Z) : bool :=
  is_edge a p && on_outer_boundary a p.

(** Modelled from the spec: the missing
    [mask_util.border_1d_indexes_from_mask]. *)
Definition border_1d_indexes_from_mask (a : ndarray2) : list nat :=
  indexes_from (is_border a) 0 (where_false a).

(** The exterior read as a predicate on positions.  One round of [grow]
    on predicates: a position outside the grid belongs to the exterior, a
    pixel of the grid joins it when it is masked and one of its 4-connected
    neighbours belongs to it. *)
Definition spread (a : ndarray2) (f : Z * Z -> bool) (p : Z * Z) : bool :=
  match get a (fst p) (snd p) with
  | Some b => b && existsb f (neighbours4 p)
  | None => true
  end.

Fixpoint spread_n (n : nat) (a : ndarray2) (f : Z * Z -> bool) : Z * Z -> bool :=
  match n with
  | O => f
  | S n' => spread a (spread_n n' a f)
  end.

(** Every position of the grid. *)
Definition positions (a : ndarray2) : list (Z * Z) :=
  list_prod (range (Z.of_nat (length a))) (range (Z.of_nat (length (hd [] a)))).

(** The unmasked region has an interior hole when some masked pixel is not
    part of the exterior. *)
Definition has_interior_hole (a : ndarray2) : bool :=
  existsb (existsb (fun b => b))
    (imap2 (fun y x b => b && negb (exterior_at (exterior a) (y, x))) a).

(** Modelled from the spec: the missing
    [mask_util.mask_circular_annular_from_shape_pixel_scales_and_radii].  A
    pixel is unmasked iff the physical coordinate of its centre lies between
    the inner and the outer radius of the annulus; the radii are compared
    through their squares. *)
Definition mask_circular_annular_from_shape_pixel_scales_and_radii
    (shp : Z * Z) (pixel_scales : Q * Q) (inner_radius_arcsec outer_radius_arcsec : Q)
    (centre : Q * Q) : ndarray2 :=
  let cy := (inject_Z (fst shp - 1) / 2)%Q in
  let cx := (inject_Z (snd shp - 1) / 2)%Q in
  map (fun y =>
         map (fun x =>
                let y_arcsec := ((cy - inject_Z y) * fst pixel_scales - fst centre)%Q in
                let x_arcsec := ((inject_Z x - cx) * snd pixel_scales - snd centre)%Q in
                let r2 := (y_arcsec * y_arcsec + x_arcsec * x_arcsec)%Q in
                negb (Qle_bool (inner_radius_arcsec * inner_radius_arcsec) r2
                      && Qle_bool r2 (outer_radius_arcsec * outer_radius_arcsec)))
             (range (snd shp)))
      (range (fst shp)).

(** Modelled from the spec: the missing
    [mask_util.blurring_mask_from_mask_and_kernel_shape].  The unmasked set of
    the result is exactly the masked pixels within [(kh//2, kw//2)]
    Chebyshev-offset of any unmasked pixel. *)
Definition blurring_mask_from_mask_and_kernel_shape (a : ndarray2)
    (kernel_shape : Z * Z) : ndarray2 :=
  let near (p q : Z * Z) :=
    (Z.abs (fst p - fst q) <=? fst kernel_shape / 2)
    && (Z.abs (snd p - snd q) <=? snd kernel_shape / 2) in
  imap2 (fun y x b => negb (b && existsb (near (y, x)) (where_false a))) a.

(** The boolean grid expanded to [shape * sub_size] resolution, each parent
    pixel's sub-block sharing the parent's state. *)
Definition sub_mask (a : ndarray2) (sub_size : Z) : ndarray2 :=
  flat_map (fun row =>
              repeat (flat_map (fun b => repeat b (Z.to_nat sub_size)) row)
                     (Z.to_nat sub_size)) a.

(** Modelled from the spec: the missing
    [mask_util.sub_mask_2d_index_for_sub_mask_1d_index_from_mask_and_sub_size],
    the 2D sub-grid coordinate of every unmasked sub-pixel in a row-major
    scan of the expanded grid. *)
Definition sub_mask_2d_index_for_sub_mask_1d_index_from_mask_and_sub_size
    (a : ndarray2) (sub_size : Z) : list (nat * nat) :=
  map (fun p => (Z.to_nat (fst p), Z.to_nat (snd p)))
      (where_false (sub_mask a sub_size)).

(** Modelled from the spec: the missing
    [array_util.resized_array_2d_from_array_2d_and_resized_shape].  A new
    array of the requested shape, re-centred at [origin] (the sentinel
    [(-1, -1)] stands for the geometric centre); pixels that fall outside the
    old array are masked. *)
Definition resized_array_2d_from_array_2d_and_resized_shape (a : ndarray2)
    (resized_shape : Z * Z) (origin : Z * Z) : ndarray2 :=
  let auto := (fst origin =? -1) && (snd origin =? -1) in
  let cy := if auto then fst (shape a) / 2 else fst origin in
  let cx := if auto then snd (shape a) / 2 else snd origin in
  map (fun y =>
         map (fun x =>
                masked_or_outside a
                  (cy - fst resized_shape / 2 + y, cx - snd resized_shape / 2 + x))
             (range (snd resized_shape)))
      (range (fst resized_shape)).

(** Modelled from the spec: the missing
    [binning_util.binned_up_mask_from_mask_2d_and_bin_up_factor], spatial
    downsampling by an integer factor.  A binned pixel is masked iff every
    pixel of its block is. *)
Definition binned_up_mask_from_mask_2d_and_bin_up_factor (a : ndarray2)
    (bin_up_factor : Z) : ndarray2 :=
  let f := bin_up_factor in
  map (fun y =>
         map (fun x =>
                forallb (fun dy =>
                           forallb (fun dx => masked_or_outside a (y * f + dy, x * f + dx))
                                   (range f))
                        (range f))
             (range ((snd (shape a) + f - 1) / f)))
      (range ((fst (shape a) + f - 1) / f)).

(** Modelled from the spec: the missing
    [grid_util.grid_1d_from_shape_pixel_scales_sub_size_and_origin].  One
    (y, x) physical coordinate per (sub-)pixel in row-major scan order;
    physical y decreases with increasing row index and physical x increases
    with increasing column index; the coordinates are centred at [origin],
    and a sub-pixel lies half a sub-step inside its pixel's border. *)
Definition grid_1d_from_shape_pixel_scales_sub_size_and_origin (shp : Z * Z)
    (pixel_scales : Q * Q) (sub_size : Z) (origin : Q * Q) : list (Q * Q) :=
  let cy := (inject_Z (fst shp - 1) / 2)%Q in
  let cx := (inject_Z (snd shp - 1) / 2)%Q in
  let sub (scale : Q) (k : Z) : Q :=
    (- (scale / 2) + (inject_Z k + (1 # 2)) * (scale / inject_Z sub_size))%Q in
  flat_map (fun y =>
    flat_map (fun x =>
      flat_map (fun y1 =>
        map (fun x1 =>
               ((fst origin + (cy - inject_Z y) * fst pixel_scales
                 - sub (fst pixel_scales) y1)%Q,
                (snd origin + (inject_Z x - cx) * snd pixel_scales
                 + sub (snd pixel_scales) x1)%Q))
            (range sub_size))
        (range sub_size))
      (range (snd shp)))
    (range (fst shp)).

(** *** Region *)

Record region : Type := mkRegion { y0 : Z; y1 : Z; x0 : Z; x1 : Z }.

(** Modelled from the spec: the missing constructor of the region class.
    Constructing with [(y0, y1, x0, x1)] fails with the region error if
    [y0 >= y1], [x0 >= x1], or any coordinate is negative. *)
Definition Region_new (r : Z * Z * Z * Z) : result region :=
  let '(a, b, c, d) := r in
  if (a <? 0) || (b <? 0) || (c <? 0) || (d <? 0) then Raise RegionException
  else if a >=? b then Raise RegionException
  else if c >=? d then Raise RegionException
  else Return (mkRegion a b c d).

(** Modelled from the spec: [total_rows = y1 - y0]. *)
Definition total_rows (r : region) : Z := y1 r - y0 r.

(** Modelled from the spec: [total_columns = x1 - x0]. *)
Definition total_columns (r : region) : Z := x1 r - x0 r.

(** Modelled from the spec: [array[region.slice]], the rows [y0 .. y1 - 1]
    and columns [x0 .. x1 - 1] of a 2D array. *)
Definition extract {A : Type} (r : region) (a : list (list A)) : list (list A) :=
  map (fun row => firstn (Z.to_nat (x1 r - x0 r)) (skipn (Z.to_nat (x0 r)) row))
      (firstn (Z.to_nat (y1 r - y0 r)) (skipn (Z.to_nat (y0 r)) a)).

End SpecModel.

(** ** The conventions the specification states, and the masks of the examples *)

Module Stated.

(** The pixel coordinates as the specification words them: the floor of
    [offset / scale + centre + 0.5] on each axis. *)
Definition floor_pixel_coordinates (shp : Z * Z) (origin pixel_scales : Q * Q)
    (arcsec_coordinates : Q * Q) : Z * Z :=
  (Qfloor ((- fst arcsec_coordinates + fst origin) / fst pixel_scales
           + inject_Z (fst shp - 1) / 2 + (1 # 2))%Q,
   Qfloor ((snd arcsec_coordinates - snd origin) / snd pixel_scales
           + inject_Z (snd shp - 1) / 2 + (1 # 2))%Q).

(** Truncation towards zero: the floor of a non-negative value, the ceiling
    of a negative one. *)
Definition truncate (q : Q) : Z :=
  if Qle_bool 0 q then Qfloor q else Qceiling q.

(** The outside of the unmasked region as the specification words it: a
    position is reachable from outside when it lies outside the grid, or is
    a masked pixel with a 4-connected neighbour that is reachable from
    outside. *)
Inductive reaches_outside (a : ndarray2) : Z * Z -> Prop :=
| reaches_off_grid (p : Z * Z) :
    get a (fst p) (snd p) = None -> reaches_outside a p
| reaches_through (p q : Z * Z) :
    get a (fst p) (snd p) = Some true ->
    In q (SpecModel.neighbours4 p) ->
    reaches_outside a q ->
    reaches_outside a p.

(** A pixel of an interior hole: masked, and not reachable from outside. *)
Definition interior_hole (a : ndarray2) (h : Z * Z) : Prop :=
  get a (fst h) (snd h) = Some true /\ ~ reaches_outside a h.

(** Two coordinate sequences that agree as rationals, entry by entry. *)
Definition same_grid (g1 g2 : list (Q * Q)) : Prop :=
  Forall2 (fun p q => fst p == fst q /\ snd p == snd q) g1 g2.

End Stated.

Module Examples.

Import Mask.

Definition sub1 (a : ndarray2) (ps o : Q * Q) : mask :=
  mkMask ScaledMask a (Some ps) (Some 1) (Some 1) (Some (1 / inject_Z 1)%Q) (Some o).

(** A 3x3 mask whose unmasked pixels are (0, 1) and (1, 1). *)
Definition column_mask : mask :=
  sub1 [[true; false; true]; [true; false; true]; [true; true; true]]
       (1, 1)%Q (0, 0)%Q.

(** A 3x3 mask with one unmasked pixel and an origin away from zero. *)
Definition shifted_mask : mask :=
  sub1 [[true; true; true]; [true; false; true]; [true; true; true]]
       (1, 1)%Q (1, 2)%Q.

(** The annulus of radii 0.5 and 1.5 on a 5x5 grid of unit pixels: a ring
    one pixel thick around a masked centre. *)
Definition thin_ring : ndarray2 :=
  SpecModel.mask_circular_annular_from_shape_pixel_scales_and_radii
    (5, 5) (1, 1)%Q (1 # 2) (3 # 2) (0, 0)%Q.

(** The annulus of radii 0.5 and 2.5 on a 7x7 grid of unit pixels. *)
Definition thick_ring : ndarray2 :=
  SpecModel.mask_circular_annular_from_shape_pixel_scales_and_radii
    (7, 7) (1, 1)%Q (1 # 2) (5 # 2) (0, 0)%Q.

End Examples.

(** ** Further methods of the mask classes *)

Module MaskMore.

Import Mask.

(** [np.full(shape, v)], which refuses a negative dimension. *)
Definition np_full (v : bool) (shp : Z * Z) : result ndarray2 :=
  if (fst shp <? 0) || (snd shp <? 0) then Raise ValueError
  else Return (full v shp).

(** [np.size(a)] *)
Definition np_size (a : ndarray2) : Z := fst (shape a) * snd (shape a).

(** [np.sum(a)] of a boolean array: the number of [True] entries. *)
Definition np_sum (a : ndarray2) : Z :=
  fold_right Z.add 0
    (map (fun row => Z.of_nat (count_occ bool_dec row true)) a).

(** A numpy array has rows of one length. *)
Definition rectangular (a : ndarray2) : Prop :=
  Forall (fun row => length row = length (hd [] a)) a.

(** [a[y, x]] for natural indexes. *)
Definition get_nat (a : ndarray2) (y x : nat) : option bool :=
  match nth_error a y with
  | Some row => nth_error row x
  | None => None
  end.

(** [AbstractMask.pixels_in_mask] *)
Definition pixels_in_mask (self : mask) : Z :=
  np_size (array self) - np_sum (array self).

(** [cls(array_2d=..., origin=...)] as the methods of [PixelMask] call it:
    the pixel-mask classes swallow the keyword, the constructors of the other
    classes miss their [sub_size] argument. *)
Definition pixel_class_call (c : mask_class) (array_2d : array_arg) : result mask :=
  match c with
  | AbstractMask | PixelMask => AbstractMask_new c array_2d
  | AbstractSubMask | PixelSubMask | ScaledMask => Raise TypeError
  end.

(** [PixelMask.unmasked_from_shape] *)
Definition unmasked_from_shape (c : mask_class) (shp : Z * Z) (invert : bool)
  : result mask :=
  mask0 <- np_full false shp ;;
  let mask0 := if invert then map (map negb) mask0 else mask0 in
  pixel_class_call c (Plain mask0).

(** [AbstractSubMask.new_mask_with_new_sub_size] *)
Definition new_mask_with_new_sub_size (self : mask) (sub_size0 : Z) : result mask :=
  class_call (cls self) (OfMask self) (pixel_scales self) sub_size0
    (Some (origin self)).

Section Methods.

Variable resized_array_2d_from_array_2d_and_resized_shape :
  ndarray2 -> Z * Z -> Z * Z -> ndarray2.
Variable binned_up_mask_from_mask_2d_and_bin_up_factor : ndarray2 -> Z -> ndarray2.




(** [ScaledMask.binned_up_mask_sub_size_1_from_mask] *)
Definition binned_up_mask_sub_size_1_from_mask (self : mask) (bin_up_factor : Z)
  : result mask :=
  let binned_up_mask :=
    binned_up_mask_from_mask_2d_and_bin_up_factor (array self) bin_up_factor in
  ps <- subscript (pixel_scales self) ;;
  class_call (cls self) (Plain binned_up_mask)
    (Some ((fst ps * inject_Z bin_up_factor)%Q,
           (snd ps * inject_Z bin_up_factor)%Q))
    1 (Some (origin self)).

End Methods.

End MaskMore.

(** ** The kernel class of [kernel.py] *)

Module Kernel.

Definition array2 : Type := list (list Q).

Definition shape2 (a : array2) : Z * Z :=
  (Z.of_nat (length a), Z.of_nat (length (hd [] a))).

(** A kernel: its 2D values ([in_2d]), the shape of its mask and its pixel
    scales. *)
Record kernel : Type := mkKernel {
  in_2d : array2;
  mask_shape : Z * Z;
  pixel_scales : option (Q * Q)
}.

Inductive kernel_exception : Type :=
| KernelException (msg : string).

Definition odd_msg : string := "Kernel Kernel must be odd".

Section Methods.

(** [skimage.transform.rescale] and [skimage.transform.resize] with the
    options the method passes. *)
Variable rescale : array2 -> Q -> array2.
Variable resize : array2 -> Z * Z -> array2.

(** [scipy.signal.convolve2d(..., mode=same)] followed by the mapping back
    to an array structure. *)
Variable convolve2d : array2 -> array2 -> array2.

(** [Kernel.manual(array=..., pixel_scales=..., renormalize=...)] *)
Variable K : Type.
Variable manual : array2 -> Q * Q -> bool -> K.

(** The branches of [rescaled_with_odd_dimensions_from_rescale_factor] that
    resize the rescaled kernel. *)
Definition with_odd_dimensions (kernel_rescaled : array2) : array2 :=
  let s := shape2 kernel_rescaled in
  if (fst s mod 2 =? 0) && (snd s mod 2 =? 0)
  then resize kernel_rescaled (fst s + 1, snd s + 1)
  else if (fst s mod 2 =? 0) && negb (snd s mod 2 =? 0)
  then resize kernel_rescaled (fst s + 1, snd s)
  else if negb (fst s mod 2 =? 0) && (snd s mod 2 =? 0)
  then resize kernel_rescaled (fst s, snd s + 1)
  else kernel_rescaled.


(** [Kernel.convolved_array_from_array] *)
Definition convolved_array_from_array (self : kernel) (array_in_2d : array2)
  : kernel_exception + array2 :=
  if (fst (mask_shape self) mod 2 =? 0) || (snd (mask_shape self) mod 2 =? 0)
  then inl (KernelException odd_msg)
  else inr (convolve2d array_in_2d (in_2d self)).

End Methods.

End Kernel.

(** Stand-ins for the image routines and for [Kernel.manual], used to run
    the kernel methods on an example. *)
Module KernelExamples.

Import Kernel.

(** Crop or pad with zeros to the requested shape. *)
Definition pad_to (a : array2) (shp : Z * Z) : array2 :=
  map (fun i => map (fun j => nth j (nth i a []) 0%Q)
                    (seq 0 (Z.to_nat (snd shp))))
      (seq 0 (Z.to_nat (fst shp))).



Definition add_all (a b : array2) : array2 :=
  map (map (fun v => (v + fold_right Qplus 0 (concat b))%Q)) a.

(** A 2x2 kernel of unit pixels. *)
Definition even_kernel : kernel :=
  mkKernel [[1; 0]; [0; 1]]%Q (2, 2) (Some (1, 1)%Q).

(** A 3x3 kernel of unit pixels. *)
Definition odd_kernel : kernel :=
  mkKernel [[0; 0; 0]; [0; 1; 0]; [0; 0; 0]]%Q (3, 3) (Some (1, 1)%Q).

End KernelExamples.

(** ** The cache decorator of [decorators.py] *)

Module Decorators.

Section Cache.

(** The instance's own data, the grids, and the values of the function. *)
Variables I G V : Type.

(** [grid.tobytes()] *)
Variable tobytes : G -> list Byte.byte.

Definition key : Type := string * list Byte.byte.

Definition key_eqb (k1 k2 : key) : bool :=
  if string_dec (fst k1) (fst k2)
  then if list_eq_dec Byte.byte_eq_dec (snd k1) (snd k2) then true else false
  else false.

(** A Python dict, in insertion order. *)
Definition dict : Type := list (key * V).

(** [d.get(k)]; [k in d] is [dict_get k d <> None]. *)
Fixpoint dict_get (k : key) (d : dict) : option V :=
  match d with
  | [] => None
  | (k', v) :: t => if key_eqb k k' then Some v else dict_get k t
  end.

(** [d[k] = v] *)
Fixpoint dict_set (k : key) (v : V) (d : dict) : dict :=
  match d with
  | [] => [(k, v)]
  | (k', v') :: t =>
      if key_eqb k k' then (k', v) :: t else (k', v') :: dict_set k v t
  end.

(** An instance: its data and, when it has the attribute, its [cache]. *)
Record instance : Type := mkInstance {
  data : I;
  cache_attr : option dict
}.

(** The decorated function, with its [__name__].  It receives the instance
    itself and may change it, its cache included: it returns its value and
    the instance as it leaves it. *)
Variable func : instance -> G -> V * instance.
Variable func_name : string.

(** The [wrapper] that [cache(func)] returns: the value and the instance
    after the call.  The extra positional and keyword arguments are neither
    part of the key nor passed to [func].  In
    [instance.cache[key] = func(instance, grid)] the call comes first and
    [instance.cache] is read after it. *)
Definition wrapper (inst : instance) (grid : G) : result (V * instance) :=
  let d := match cache_attr inst with
           | None => []
           | Some d => d
           end in
  let inst0 := mkInstance (data inst) (Some d) in
  let k := (func_name, tobytes grid) in
  match dict_get k d with
  | Some v => Return (v, inst0)
  | None =>
      let (v, inst1) := func inst0 grid in
      match cache_attr inst1 with
      | None => Raise AttributeError
      | Some d1 => Return (v, mkInstance (data inst1) (Some (dict_set k v d1)))
      end
  end.

End Cache.

End Decorators.

(** A cached function on grids given by a shape and their bytes, used to run
    the cache decorator on an example. *)
Module CacheExamples.

Definition grid : Type := (Z * Z) * list Byte.byte.

Definition grid_tobytes (g : grid) : list Byte.byte := snd g.

(** The number of rows of the grid; the instance counts the calls. *)
Definition rows_of (inst : Decorators.instance Z Z) (g : grid)
  : Z * Decorators.instance Z Z :=
  (fst (fst g),
   Decorators.mkInstance Z Z (Decorators.data Z Z inst + 1)
     (Decorators.cache_attr Z Z inst)).

(** The number of rows again, by a function that also leaves the number of
    columns in the cache, under a key of its own. *)
Definition rows_noting_columns (inst : Decorators.instance Z Z) (g : grid)
  : Z * Decorators.instance Z Z :=
  (fst (fst g),
   Decorators.mkInstance Z Z (Decorators.data Z Z inst)
     (option_map (Decorators.dict_set Z ("columns_of"%string, snd g) (snd (fst g)))
        (Decorators.cache_attr Z Z inst))).

Definition tall : grid := ((3, 2), [Byte.x01; Byte.x02; Byte.x03; Byte.x04; Byte.x05; Byte.x06]).

Definition wide : grid := ((2, 3), [Byte.x01; Byte.x02; Byte.x03; Byte.x04; Byte.x05; Byte.x06]).

Definition fresh : Decorators.instance Z Z := Decorators.mkInstance Z Z 0 None.

End CacheExamples.

(** * Properties *)

Import Mask.

(** ** Double-precision arithmetic *)

Lemma below_overflow : 2 ^ 53 <= 2 ^ 1024 - 2 ^ 970.
Proof. vm_compute. discriminate. Qed.

Lemma round_half_even_1 (n : Z) : Double.round_half_even n 1 = n.
Proof.
  unfold Double.round_half_even. rewrite Z.div_1_r, Z.mod_1_r. reflexivity.
Qed.

Lemma Qred_inject_Z (a : Z) : Qred (inject_Z a) = inject_Z a.
Proof.
  unfold Qred, inject_Z.
  pose proof (Z.ggcd_gcd a 1) as Hg.
  pose proof (Z.ggcd_correct_divisors a 1) as Hd.
  destruct (Z.ggcd a 1) as [g [aa bb]]. simpl in *.
  rewrite Z.gcd_1_r in Hg. subst g. destruct Hd as [Ha Hb].
  rewrite Z.mul_1_l in Ha, Hb. subst aa bb. reflexivity.
Qed.

Lemma round_positive_int (a : Z) :
  0 < a < 2 ^ 53 -> Double.round_positive a 1 = inject_Z a.
Proof.
  intros [Hpos Hlt]. unfold Double.round_positive, Double.floor_log2.
  change (Z.log2 1) with 0. rewrite Z.sub_0_r.
  pose proof (Z.log2_nonneg a) as Hl0.
  destruct (Z.log2_spec a Hpos) as [Hlo _].
  assert (Hl : Z.log2 a < 53) by (apply Z.log2_lt_pow2; lia).
  replace (0 <=? Z.log2 a) with true by lia.
  replace (2 ^ Z.log2 a * 1 <=? a) with true by lia.
  replace (Z.max (Z.log2 a - 52) (-1074)) with (Z.log2 a - 52) by lia.
  destruct (0 <=? Z.log2 a - 52) eqn:E.
  - replace (Z.log2 a - 52) with 0 by lia.
    change (2 ^ 0) with 1. rewrite !Z.mul_1_r, round_half_even_1. reflexivity.
  - rewrite round_half_even_1.
    assert (Hp : 0 < 2 ^ (- (Z.log2 a - 52))) by (apply Z.pow_pos_nonneg; lia).
    transitivity (Qred (inject_Z a)).
    + apply Qred_complete. unfold Qeq. simpl.
      rewrite Z2Pos.id by assumption. ring.
    + apply Qred_inject_Z.
Qed.

(** An integer below [2^53] in magnitude is a double. *)
Lemma fl_inject_Z (n : Z) :
  Z.abs n < 2 ^ 53 -> Double.fl (inject_Z n) = inject_Z n.
Proof.
  intros Hn. destruct n as [|a|a];
    cbv beta iota delta [Double.fl inject_Z Qnum Qden].
  - reflexivity.
  - apply round_positive_int. lia.
  - rewrite (round_positive_int (Z.pos a)) by lia. reflexivity.
Qed.

Lemma not_overflows_inject_Z (n : Z) :
  Z.abs n < 2 ^ 53 -> Double.overflows (inject_Z n) = false.
Proof.
  intros Hn. unfold Double.overflows.
  destruct (Qle_bool _ _) eqn:E; [|reflexivity].
  apply Qle_bool_iff in E. exfalso.
  pose proof below_overflow as Hb.
  assert (Ha : Qabs (inject_Z n) = inject_Z (Z.abs n)) by reflexivity.
  rewrite Ha in E. rewrite <- Zle_Qle in E. lia.
Qed.

Lemma of_int_exact (n : Z) :
  Z.abs n < 2 ^ 53 -> Double.of_int n = Return (inject_Z n).
Proof.
  intros Hn. unfold Double.of_int.
  rewrite not_overflows_inject_Z, fl_inject_Z by assumption. reflexivity.
Qed.


Lemma one_over_nonzero (l : Z) (fr : Q) :
  Double.one_over l = Return fr -> l <> 0.
Proof.
  intros H ->. vm_compute in H. discriminate.
Qed.

Lemma int_square_nonzero (ss l : Z) :
  Double.int_square ss = Return l -> l <> 0 -> ss <> 0.
Proof.
  intros H Hl ->. vm_compute in H. inversion H. congruence.
Qed.


(** ** Constructors *)

Lemma Qle_bool_0_false (q : Q) : (0 < q)%Q -> Qle_bool q 0 = false.
Proof.
  intros Hq. destruct (Qle_bool q 0) eqn:E; [|reflexivity].
  apply Qle_bool_iff in E. exfalso. exact (Qlt_not_le _ _ Hq E).
Qed.

Lemma Qle_bool_0_false_inv (q : Q) : Qle_bool q 0 = false -> (0 < q)%Q.
Proof.
  intros E. apply Qnot_le_lt. intros H.
  apply Qle_bool_iff in H. congruence.
Qed.

Lemma AbstractSubMask_new_plain (c : mask_class) (a : ndarray2) (ss l : Z) (fr : Q) :
  Double.int_square ss = Return l ->
  Double.one_over l = Return fr ->
  AbstractSubMask_new c (Plain a) ss =
  Return (mkMask c a None (Some ss) (Some l) (Some fr) None).
Proof.
  intros Hl Hfr. unfold AbstractSubMask_new, AbstractMask_new. simpl.
  rewrite Hl. simpl. rewrite Hfr. reflexivity.
Qed.

Lemma array_finalize_cls (c : mask_class) (obj : array_arg) (m : mask) :
  __array_finalize__ c obj = Return m -> cls m = c.
Proof.
  unfold __array_finalize__. destruct obj as [a|m0].
  - intros H. inversion H. reflexivity.
  - destruct (sub_size m0) as [s|]; [|intros H; inversion H; reflexivity].
    destruct (Double.int_square s); simpl; [|discriminate].
    destruct (sub_length m0) as [l|]; [|discriminate].
    destruct (Double.one_over l); simpl; [|discriminate].
    intros H. inversion H. reflexivity.
Qed.

Lemma AbstractSubMask_new_inv (c : mask_class) (array_2d : array_arg) (ss : Z)
    (m : mask) :
  AbstractSubMask_new c array_2d ss = Return m ->
  cls m = c /\ sub_size m = Some ss /\ ss <> 0 /\
  exists (l : Z) (fr : Q),
    Double.int_square ss = Return l /\ sub_length m = Some l /\
    Double.one_over l = Return fr /\ sub_fraction m = Some fr.
Proof.
  unfold AbstractSubMask_new, AbstractMask_new.
  destruct (__array_finalize__ c array_2d) as [obj|e] eqn:F; simpl; [|discriminate].
  destruct (Double.int_square ss) as [l|e] eqn:Hl; simpl; [|discriminate].
  destruct (Double.one_over l) as [fr|e] eqn:Hfr; simpl; [|discriminate].
  intros H. inversion H; subst; simpl.
  split; [eapply array_finalize_cls; eassumption|].
  split; [reflexivity|]. split.
  - eapply int_square_nonzero; [eassumption|].
    eapply one_over_nonzero; eassumption.
  - exists l, fr. auto.
Qed.

Lemma ScaledMask_new_inv (c : mask_class) (array_2d : array_arg)
    (ps : option (Q * Q)) (ss : Z) (o : option (Q * Q)) (m : mask) :
  ScaledMask_new c array_2d ps ss o = Return m ->
  cls m = c /\ pixel_scales m = ps /\
  (exists sy sx, ps = Some (sy, sx) /\ (0 < sy)%Q /\ (0 < sx)%Q) /\
  sub_size m = Some ss /\ ss <> 0 /\
  (exists (l : Z) (fr : Q),
     Double.int_square ss = Return l /\ sub_length m = Some l /\
     Double.one_over l = Return fr /\ sub_fraction m = Some fr) /\
  origin m = o.
Proof.
  unfold ScaledMask_new.
  destruct (AbstractSubMask_new c array_2d ss) as [obj|e] eqn:F; simpl; [|discriminate].
  apply AbstractSubMask_new_inv in F. destruct F as (Hc & Hs & Hn & Hl).
  destruct ps as [[sy sx]|]; [|discriminate].
  destruct (Qle_bool sy 0) eqn:Ey; [discriminate|].
  destruct (Qle_bool sx 0) eqn:Ex; [discriminate|].
  simpl. intros H. inversion H; subst; simpl.
  repeat split; try assumption; try reflexivity.
  exists sy, sx. repeat split; auto using Qle_bool_0_false_inv.
Qed.

Lemma ScaledMask_new_plain (c : mask_class) (a : ndarray2) (sy sx : Q) (ss l : Z)
    (fr : Q) (o : option (Q * Q)) :
  (0 < sy)%Q -> (0 < sx)%Q ->
  Double.int_square ss = Return l ->
  Double.one_over l = Return fr ->
  ScaledMask_new c (Plain a) (Some (sy, sx)) ss o =
  Return (mkMask c a (Some (sy, sx)) (Some ss) (Some l) (Some fr) o).
Proof.
  intros Hy Hx Hl Hfr. unfold ScaledMask_new.
  rewrite (AbstractSubMask_new_plain _ _ _ _ _ Hl Hfr). simpl.
  rewrite (Qle_bool_0_false _ Hy), (Qle_bool_0_false _ Hx). reflexivity.
Qed.

(** What a Scaled Mask is known to carry. *)
Lemma is_ScaledMask_inv (m : mask) :
  is_ScaledMask m ->
  cls m = ScaledMask /\
  (exists sy sx, pixel_scales m = Some (sy, sx) /\ (0 < sy)%Q /\ (0 < sx)%Q) /\
  (exists (ss l : Z) (fr : Q),
     sub_size m = Some ss /\ ss <> 0 /\
     Double.int_square ss = Return l /\ sub_length m = Some l /\
     Double.one_over l = Return fr /\ sub_fraction m = Some fr).
Proof.
  intros (arr & ps & ss & o & H). apply ScaledMask_new_inv in H.
  destruct H as (Hc & Hps & (sy & sx & -> & Hy & Hx) & Hs & Hn
                 & (l & fr & Hl & Hsl & Hfr & Hsf) & Ho).
  split; [assumption|]. split.
  - exists sy, sx. auto.
  - exists ss, l, fr. auto 7.
Qed.

(** The only errors a constructor call on a plain array can raise. *)
Lemma class_call_plain_errors (c : mask_class) (a : ndarray2)
    (ps : option (Q * Q)) (ss : Z) (o : option (option (Q * Q))) (e : exception) :
  class_call c (Plain a) ps ss o = Raise e ->
  e = ZeroDivisionError \/ e = OverflowError \/ e = TypeError \/
  e = MaskException pixel_scale_msg.
Proof.
  assert (Hsq : forall e0, Double.int_square ss = Raise e0 -> e0 = OverflowError).
  { unfold Double.int_square, Double.of_int, Double.square. intros e0.
    destruct (Double.overflows (inject_Z ss)); simpl;
      [intros H; inversion H; reflexivity|].
    destruct (Double.overflows _); simpl; [|discriminate].
    intros H; inversion H; reflexivity. }
  assert (Hov : forall l e0, Double.one_over l = Raise e0 ->
                  e0 = OverflowError \/ e0 = ZeroDivisionError).
  { unfold Double.one_over, Double.of_int. intros l e0.
    destruct (Double.overflows (inject_Z l)); simpl;
      [intros H; inversion H; auto|].
    destruct (Qeq_bool _ 0); [|discriminate].
    intros H; inversion H; auto. }
  assert (Hsub : forall c0 e0, AbstractSubMask_new c0 (Plain a) ss = Raise e0 ->
                   e0 = ZeroDivisionError \/ e0 = OverflowError).
  { intros c0 e0. unfold AbstractSubMask_new, AbstractMask_new. simpl.
    destruct (Double.int_square ss) as [l|e1] eqn:E1; simpl.
    - destruct (Double.one_over l) as [fr|e2] eqn:E2; simpl; [discriminate|].
      intros H. inversion H; subst. destruct (Hov _ _ E2); auto.
    - intros H. inversion H; subst. right. exact (Hsq _ eq_refl). }
  unfold class_call, ScaledMask_new.
  destruct c; simpl; try discriminate.
  - intros H. destruct (Hsub _ _ H); auto.
  - intros H. destruct (Hsub _ _ H); auto.
  - destruct (AbstractSubMask_new ScaledMask (Plain a) ss) as [obj|e1] eqn:E1; simpl.
    + destruct ps as [[sy sx]|]; [|intros H; inversion H; auto].
      destruct (Qle_bool sy 0 || Qle_bool sx 0); intros H; inversion H; auto.
    + intros H. inversion H; subst. destruct (Hsub _ _ E1); auto.
Qed.

Lemma int_square_1 : Double.int_square 1 = Return 1.
Proof. vm_compute. reflexivity. Qed.

Lemma one_over_1 : Double.one_over 1 = Return 1%Q.
Proof. vm_compute. reflexivity. Qed.

Lemma class_call_scaled_plain (a : ndarray2) (sy sx : Q) (ss l : Z) (fr : Q)
    (o : option (option (Q * Q))) :
  (0 < sy)%Q -> (0 < sx)%Q ->
  Double.int_square ss = Return l ->
  Double.one_over l = Return fr ->
  class_call ScaledMask (Plain a) (Some (sy, sx)) ss o =
  Return (mkMask ScaledMask a (Some (sy, sx)) (Some ss) (Some l) (Some fr)
            (match o with Some o' => o' | None => default_origin end)).
Proof.
  intros. unfold class_call. apply ScaledMask_new_plain; assumption.
Qed.




(** The double model on the sub-sizes where it departs from exact squares:
    [94906267 ** 2.0] is rounded to even, and [(10 ** 200) ** 2.0] is out of
    range. *)
Example sub_length_beyond_exact_range :
  Double.int_square 94906267 = Return 9007199515875288 /\
  94906267 * 94906267 = 9007199515875289 /\
  AbstractSubMask_new PixelSubMask (Plain [[false]]) (10 ^ 200)
  = Raise OverflowError.
Proof. vm_compute. repeat split. Qed.
(** ** Blurring masks *)

Lemma mod2_even (k : Z) : (k mod 2 =? 0) = Z.even k.
Proof.
  rewrite Zeven_mod. reflexivity.
Qed.

(** C1: a kernel shape with an even dimension raises the kernel-shape error
    and no mask is returned; a kernel shape with two odd dimensions never
    raises it. *)
Theorem blurring_mask_kernel_shape_error
    (blurring_util : ndarray2 -> Z * Z -> ndarray2) (self : mask) (kh kw : Z) :
  (Z.even kh = true \/ Z.even kw = true ->
   blurring_mask_from_kernel_shape blurring_util self (kh, kw)
   = Raise (MaskException psf_msg)) /\
  (Z.odd kh = true -> Z.odd kw = true ->
   blurring_mask_from_kernel_shape blurring_util self (kh, kw)
   <> Raise (MaskException psf_msg)).
Proof.
  unfold blurring_mask_from_kernel_shape. simpl fst. simpl snd.
  rewrite !mod2_even. split.
  - intros [H|H]; rewrite H; [reflexivity|].
    rewrite orb_true_r. reflexivity.
  - intros Hh Hw. rewrite <- Z.negb_even in Hh, Hw.
    apply negb_true_iff in Hh, Hw. rewrite Hh, Hw. simpl.
    intros H. apply class_call_plain_errors in H.
    destruct H as [H|[H|[H|H]]]; discriminate H.
Qed.

Lemma blurring_mask_kernel_shape_error_witness :
  blurring_mask_from_kernel_shape
    SpecModel.blurring_mask_from_mask_and_kernel_shape Examples.shifted_mask (4, 3)
  = Raise (MaskException psf_msg) /\
  blurring_mask_from_kernel_shape
    SpecModel.blurring_mask_from_mask_and_kernel_shape Examples.shifted_mask (3, 3)
  <> Raise (MaskException psf_msg).
Proof.
  split.
  - apply (proj1 (blurring_mask_kernel_shape_error
                    SpecModel.blurring_mask_from_mask_and_kernel_shape
                    Examples.shifted_mask 4 3)).
    left. reflexivity.
  - apply (proj2 (blurring_mask_kernel_shape_error
                    SpecModel.blurring_mask_from_mask_and_kernel_shape
                    Examples.shifted_mask 3 3)); reflexivity.
Defined.

Lemma take_errors {A : Type} (table : list A) (idx : list nat) (e : exception) :
  take table idx = Raise e -> e = IndexError.
Proof.
  induction idx as [|i rest IH]; simpl; [discriminate|].
  destruct (nth_error table i); [|intros H; inversion H; reflexivity].
  destruct (take table rest); simpl; [discriminate|].
  intros H. inversion H; subst. apply IH. reflexivity.
Qed.

Lemma set_all_errors (idx : list (nat * nat)) (v : bool) (e : exception) :
  forall a : ndarray2, set_all a idx v = Raise e -> e = IndexError.
Proof.
  induction idx as [|[y x] rest IH]; intros a; simpl; [discriminate|].
  destruct (set a y x v) as [a'|e'] eqn:E; simpl.
  - apply IH.
  - intros H. inversion H; subst. unfold set in E.
    destruct (nth_error a y); [|inversion E; reflexivity].
    destruct (set_nth l x v); [|inversion E; reflexivity].
    destruct (set_nth a y l0); inversion E; reflexivity.
Qed.

(** [edge_mask] and [border_mask] share their body up to the index list:
    either an index is out of range, or the mask that is returned carries
    the parent's origin and pixel scales, with [sub_size = 1]. *)
Lemma derived_mask_origin (self : mask) (table : list (nat * nat)) (idx : list nat) :
  is_ScaledMask self ->
  let r :=
    (i <- take table idx ;;
     mask0 <- set_all (full true (shape (array self))) i false ;;
     class_call (cls self) (Plain mask0) (pixel_scales self) 1 (Some (origin self))) in
  r = Raise IndexError \/
  exists dm : mask,
    r = Return dm /\ origin dm = origin self /\ sub_size dm = Some 1 /\
    pixel_scales dm = pixel_scales self.
Proof.
  intros HS. apply is_ScaledMask_inv in HS.
  destruct HS as (Hc & (sy & sx & Hps & Hy & Hx) & _).
  destruct (take table idx) as [i|e] eqn:T; simpl.
  - destruct (set_all _ i false) as [mask0|e] eqn:S; simpl.
    + right.
      rewrite Hc, Hps,
        (class_call_scaled_plain _ _ _ _ _ _ _ Hy Hx int_square_1 one_over_1).
      eexists. split; [reflexivity|]. simpl. auto.
    + left. apply set_all_errors in S. subst. reflexivity.
  - left. apply take_errors in T. subst. reflexivity.
Qed.

(** C10: the blurring mask of a Scaled Mask (odd kernel shape) has
    [sub_size = 1] and the parent's [pixel_scales], but its [origin] is the
    constructor default (0.0, 0.0) whatever the parent's origin is; the masks
    that [edge_mask] and [border_mask] return carry the parent's origin. *)
Theorem blurring_mask_drops_origin
    (blurring_util : ndarray2 -> Z * Z -> ndarray2)
    (edge_util border_util : ndarray2 -> list nat)
    (index_util : ndarray2 -> Z -> list (nat * nat))
    (self : mask) (kh kw : Z) :
  is_ScaledMask self -> Z.odd kh = true -> Z.odd kw = true ->
  (exists bm : mask,
     blurring_mask_from_kernel_shape blurring_util self (kh, kw) = Return bm /\
     array bm = blurring_util (array self) (kh, kw) /\
     sub_size bm = Some 1 /\
     pixel_scales bm = pixel_scales self /\
     origin bm = Some (0, 0)%Q) /\
  (edge_mask edge_util index_util self = Raise IndexError \/
   exists em : mask,
     edge_mask edge_util index_util self = Return em /\
     origin em = origin self /\ sub_size em = Some 1 /\
     pixel_scales em = pixel_scales self) /\
  (border_mask border_util index_util self = Raise IndexError \/
   exists bm : mask,
     border_mask border_util index_util self = Return bm /\
     origin bm = origin self /\ sub_size bm = Some 1 /\
     pixel_scales bm = pixel_scales self).
Proof.
  intros HS Hh Hw. split; [|split].
  - apply is_ScaledMask_inv in HS.
    destruct HS as (Hc & (sy & sx & Hps & Hy & Hx) & _).
    unfold blurring_mask_from_kernel_shape. simpl fst. simpl snd.
    rewrite !mod2_even. rewrite <- Z.negb_even in Hh, Hw.
    apply negb_true_iff in Hh, Hw. rewrite Hh, Hw. simpl.
    rewrite Hc, Hps,
      (class_call_scaled_plain _ _ _ _ _ _ _ Hy Hx int_square_1 one_over_1).
    eexists. split; [reflexivity|]. simpl. auto.
  - apply (derived_mask_origin self); exact HS.
  - apply (derived_mask_origin self); exact HS.
Qed.

Lemma shifted_mask_is_ScaledMask : is_ScaledMask Examples.shifted_mask.
Proof.
  exists (Plain (array Examples.shifted_mask)), (Some (1, 1)%Q), 1, (Some (1, 2)%Q).
  reflexivity.
Qed.

Lemma blurring_mask_drops_origin_witness :
  origin Examples.shifted_mask = Some (1, 2)%Q /\
  (exists bm : mask,
     blurring_mask_from_kernel_shape
       SpecModel.blurring_mask_from_mask_and_kernel_shape
       Examples.shifted_mask (3, 3) = Return bm /\
     array bm = SpecModel.blurring_mask_from_mask_and_kernel_shape
                  (array Examples.shifted_mask) (3, 3) /\
     sub_size bm = Some 1 /\
     pixel_scales bm = pixel_scales Examples.shifted_mask /\
     origin bm = Some (0, 0)%Q).
Proof.
  split; [reflexivity|].
  apply (blurring_mask_drops_origin
           SpecModel.blurring_mask_from_mask_and_kernel_shape
           SpecModel.edge_1d_indexes_from_mask
           SpecModel.border_1d_indexes_from_mask
           SpecModel.sub_mask_2d_index_for_sub_mask_1d_index_from_mask_and_sub_size
           Examples.shifted_mask 3 3).
  - exact shifted_mask_is_ScaledMask.
  - reflexivity.
  - reflexivity.
Defined.

(** On the shifted example [edge_mask] and [border_mask] do return a mask,
    and it carries the origin (1, 2) of the parent. *)
Example edge_mask_of_shifted_mask :
  edge_mask SpecModel.edge_1d_indexes_from_mask
    SpecModel.sub_mask_2d_index_for_sub_mask_1d_index_from_mask_and_sub_size
    Examples.shifted_mask
  = Return (mkMask ScaledMask
              [[true; true; true]; [true; false; true]; [true; true; true]]
              (Some (1, 1)%Q) (Some 1) (Some 1) (Some (1 / inject_Z 1)%Q)
              (Some (1, 2)%Q)) /\
  border_mask SpecModel.border_1d_indexes_from_mask
    SpecModel.sub_mask_2d_index_for_sub_mask_1d_index_from_mask_and_sub_size
    Examples.shifted_mask
  = Return (mkMask ScaledMask
              [[true; true; true]; [true; false; true]; [true; true; true]]
              (Some (1, 1)%Q) (Some 1) (Some 1) (Some (1 / inject_Z 1)%Q)
              (Some (1, 2)%Q)).
Proof. split; reflexivity. Qed.

(** ** Binning *)




(** ** Resizing *)

Lemma of_int_errors (n : Z) (e : exception) :
  Double.of_int n = Raise e -> e = OverflowError.
Proof.
  unfold Double.of_int. destruct (Double.overflows _); [|discriminate].
  intros H. inversion H. reflexivity.
Qed.

Lemma central_pixel_coordinates_errors (self : mask) (e : exception) :
  central_pixel_coordinates self = Raise e -> e = OverflowError.
Proof.
  unfold central_pixel_coordinates.
  destruct (Double.of_int (fst (shape (array self)) - 1)) as [cy|e1] eqn:E1;
    cbn [bind].
  - destruct (Double.of_int (snd (shape (array self)) - 1)) as [cx|e2] eqn:E2;
      cbn [bind]; [discriminate|].
    intros H. inversion H; subst. exact (of_int_errors _ _ E2).
  - intros H. inversion H; subst. exact (of_int_errors _ _ E1).
Qed.

Lemma div_errors (a : Double.value) (b : Q) (e : exception) :
  Double.div a b = Raise e -> e = ZeroDivisionError.
Proof.
  unfold Double.div. destruct (Qeq_bool _ 0); [|discriminate].
  intros H. inversion H. reflexivity.
Qed.

Lemma to_int_errors (a : Double.value) (e : exception) :
  Double.to_int a = Raise e -> e = OverflowError.
Proof.
  destruct a; simpl; [discriminate|]. intros H. inversion H. reflexivity.
Qed.

Lemma coordinate_float_errors (self : mask) (offset : Q * Q -> Double.value)
    (pick : forall A : Type, A * A -> A) (e : exception) :
  (o <- subscript (origin self) ;;
   ps <- subscript (pixel_scales self) ;;
   q <- Double.div (offset o) (pick Q ps) ;;
   c <- central_pixel_coordinates self ;;
   Return (Double.add (Double.add q (pick Q c)) (1 # 2))) = Raise e ->
  e = TypeError \/ e = ZeroDivisionError \/ e = OverflowError.
Proof.
  destruct (origin self) as [o|]; simpl; [|intros H; inversion H; auto].
  destruct (pixel_scales self) as [ps|]; simpl; [|intros H; inversion H; auto].
  destruct (Double.div _ _) as [q|e1] eqn:E1; simpl.
  - destruct (central_pixel_coordinates self) as [c|e2] eqn:E2; simpl; [discriminate|].
    intros H. inversion H; subst.
    right. right. exact (central_pixel_coordinates_errors _ _ E2).
  - intros H. inversion H; subst. right. left. exact (div_errors _ _ _ E1).
Qed.

Lemma row_float_errors (self : mask) (y : Q) (e : exception) :
  row_float self y = Raise e ->
  e = TypeError \/ e = ZeroDivisionError \/ e = OverflowError.
Proof.
  exact (coordinate_float_errors self
           (fun o => Double.add (Double.Finite (- Double.fl y)) (fst o))
           (fun A => @fst A A) e).
Qed.

Lemma column_float_errors (self : mask) (x : Q) (e : exception) :
  column_float self x = Raise e ->
  e = TypeError \/ e = ZeroDivisionError \/ e = OverflowError.
Proof.
  exact (coordinate_float_errors self
           (fun o => Double.sub (Double.Finite (Double.fl x)) (snd o))
           (fun A => @snd A A) e).
Qed.

(** The only errors the coordinate conversion can raise. *)
Lemma pixel_coordinates_errors (self : mask) (a : Q * Q) (e : exception) :
  pixel_coordinates_from_arcsec_coordinates self a = Raise e ->
  e = TypeError \/ e = ZeroDivisionError \/ e = OverflowError.
Proof.
  unfold pixel_coordinates_from_arcsec_coordinates.
  destruct (row_float self (fst a)) as [fy|e1] eqn:E1; simpl;
    [|intros H; inversion H; subst; exact (row_float_errors _ _ _ E1)].
  destruct (Double.to_int fy) as [y|e2] eqn:E2; simpl;
    [|intros H; inversion H; subst; right; right; exact (to_int_errors _ _ E2)].
  destruct (column_float self (snd a)) as [fx|e3] eqn:E3; simpl;
    [|intros H; inversion H; subst; exact (column_float_errors _ _ _ E3)].
  destruct (Double.to_int fx) as [x|e4] eqn:E4; simpl; [discriminate|].
  intros H; inversion H; subst; right; right; exact (to_int_errors _ _ E4).
Qed.

(** C6: supplying both a pixel-space and an arcsec-space centre raises the
    two-centres [MaskException]; with at most one of them supplied that error
    is not raised. *)
Theorem resized_mask_two_centres
    (resize_util : ndarray2 -> Z * Z -> Z * Z -> ndarray2)
    (self : mask) (new_shape : Z * Z)
    (new_centre_pixels : option (Z * Z)) (new_centre_arcsec : option (Q * Q)) :
  (new_centre_pixels <> None /\ new_centre_arcsec <> None ->
   resized_mask_from_new_shape resize_util self new_shape
     new_centre_pixels new_centre_arcsec
   = Raise (MaskException two_centres_msg)) /\
  (new_centre_pixels = None \/ new_centre_arcsec = None ->
   resized_mask_from_new_shape resize_util self new_shape
     new_centre_pixels new_centre_arcsec
   <> Raise (MaskException two_centres_msg)).
Proof.
  unfold resized_mask_from_new_shape. split.
  - intros [Hp Ha].
    destruct new_centre_pixels; [|congruence].
    destruct new_centre_arcsec; [|congruence].
    reflexivity.
  - assert (Hrest : forall new_centre : Z * Z,
      (ss <- getattr (sub_size self) ;;
       class_call (cls self)
         (Plain (resize_util (array self) new_shape new_centre))
         (pixel_scales self) ss (Some (Some (Q_of_pixels new_centre))))
      <> Raise (MaskException two_centres_msg)).
    { intros new_centre. destruct (sub_size self) as [ss|]; simpl; [|discriminate].
      intros H. apply class_call_plain_errors in H.
      destruct H as [H|[H|[H|H]]]; discriminate H. }
    intros Hnone.
    destruct new_centre_pixels as [p|], new_centre_arcsec as [a|];
      try (destruct Hnone; discriminate); simpl; try apply Hrest.
    destruct (pixel_coordinates_from_arcsec_coordinates self a) as [c|e] eqn:E;
      simpl; [apply Hrest|].
    apply pixel_coordinates_errors in E.
    destruct E as [E|[E|E]]; subst; discriminate.
Qed.

Lemma resized_mask_two_centres_witness :
  resized_mask_from_new_shape
    SpecModel.resized_array_2d_from_array_2d_and_resized_shape
    Examples.shifted_mask (5, 5) (Some (1, 1)) (Some (0, 0)%Q)
  = Raise (MaskException two_centres_msg) /\
  resized_mask_from_new_shape
    SpecModel.resized_array_2d_from_array_2d_and_resized_shape
    Examples.shifted_mask (5, 5) None (Some (0, 0)%Q)
  <> Raise (MaskException two_centres_msg).
Proof.
  split.
  - apply (proj1 (resized_mask_two_centres
                    SpecModel.resized_array_2d_from_array_2d_and_resized_shape
                    Examples.shifted_mask (5, 5) (Some (1, 1)) (Some (0, 0)%Q))).
    split; discriminate.
  - apply (proj2 (resized_mask_two_centres
                    SpecModel.resized_array_2d_from_array_2d_and_resized_shape
                    Examples.shifted_mask (5, 5) None (Some (0, 0)%Q))).
    left. reflexivity.
Defined.


(** ** Pixel coordinates of arc-second coordinates *)

Lemma int_nonneg (q : Q) : (0 <= q)%Q -> int q = Qfloor q.
Proof.
  destruct q as [n d]. unfold Qle, int, Qfloor. simpl. intros H.
  apply Z.quot_div_nonneg; lia.
Qed.

Lemma int_neg (q : Q) : (q < 0)%Q -> int q = Qceiling q.
Proof.
  destruct q as [n d]. unfold Qlt, int, Qceiling, Qfloor. simpl. intros H.
  replace n with (- - n) at 1 by lia.
  rewrite Z.quot_opp_l by lia.
  rewrite Z.quot_div_nonneg by lia. reflexivity.
Qed.

Lemma int_truncate (q : Q) : int q = Stated.truncate q.
Proof.
  unfold Stated.truncate. destruct (Qle_bool 0 q) eqn:E.
  - apply int_nonneg. apply Qle_bool_iff. assumption.
  - apply int_neg. apply Qnot_le_lt. intros H.
    apply Qle_bool_iff in H. congruence.
Qed.

Lemma to_int_finite (q : Q) : Double.to_int (Double.Finite q) = Return (int q).
Proof. reflexivity. Qed.

Lemma div_nonzero (a : Double.value) (b : Q) :
  ~ (Double.fl b == 0)%Q -> Double.div a b = Return (Double.quotient a b).
Proof.
  intros Hb. unfold Double.div. destruct (Qeq_bool (Double.fl b) 0) eqn:E; [|reflexivity].
  apply Qeq_bool_iff in E. contradiction.
Qed.

Lemma central_pixel_coordinates_in_range (self : mask) :
  fst (shape (array self)) <= 2 ^ 53 -> snd (shape (array self)) <= 2 ^ 53 ->
  central_pixel_coordinates self
  = Return (Double.half (inject_Z (fst (shape (array self)) - 1)),
            Double.half (inject_Z (snd (shape (array self)) - 1))).
Proof.
  intros Hr Hc. unfold central_pixel_coordinates.
  assert (Hr0 : 0 <= fst (shape (array self)))
    by (unfold shape; simpl; lia).
  assert (Hc0 : 0 <= snd (shape (array self)))
    by (unfold shape; simpl; destruct (array self); simpl; lia).
  rewrite !of_int_exact by lia. reflexivity.
Qed.

(** C4, as the code has it: with [vy] the double-precision value of
    [(-y + oy)/sy + cy + 0.5] and [vx] that of [(x - ox)/sx + cx + 0.5],
    every operation rounded to the nearest double, the method returns [vy]
    and [vx] truncated towards zero, as [int] does; this is the floor
    whenever both values are non-negative, and the ceiling for a negative
    value; a value that is infinite is an [OverflowError]. *)
Theorem pixel_coordinates_truncate (self : mask) (oy ox sy sx y x : Q) :
  origin self = Some (oy, ox) ->
  pixel_scales self = Some (sy, sx) ->
  ~ (Double.fl sy == 0)%Q -> ~ (Double.fl sx == 0)%Q ->
  fst (shape (array self)) <= 2 ^ 53 -> snd (shape (array self)) <= 2 ^ 53 ->
  let cy := Double.half (inject_Z (fst (shape (array self)) - 1)) in
  let cx := Double.half (inject_Z (snd (shape (array self)) - 1)) in
  let vy :=
    Double.add
      (Double.add
         (Double.quotient (Double.add (Double.Finite (- Double.fl y)) oy) sy) cy)
      (1 # 2) in
  let vx :=
    Double.add
      (Double.add
         (Double.quotient (Double.sub (Double.Finite (Double.fl x)) ox) sx) cx)
      (1 # 2) in
  central_pixel_coordinates self = Return (cy, cx) /\
  (forall fy fx : Q,
     vy = Double.Finite fy -> vx = Double.Finite fx ->
     pixel_coordinates_from_arcsec_coordinates self (y, x)
     = Return (Stated.truncate fy, Stated.truncate fx) /\
     ((0 <= fy)%Q -> (0 <= fx)%Q ->
      pixel_coordinates_from_arcsec_coordinates self (y, x)
      = Return (Qfloor fy, Qfloor fx)) /\
     ((fy < 0)%Q -> (fx < 0)%Q ->
      pixel_coordinates_from_arcsec_coordinates self (y, x)
      = Return (Qceiling fy, Qceiling fx))) /\
  (vy = Double.Infinite \/ vx = Double.Infinite ->
   pixel_coordinates_from_arcsec_coordinates self (y, x) = Raise OverflowError).
Proof.
  intros Ho Hps Hsy Hsx Hr Hc cy cx vy vx.
  pose proof (central_pixel_coordinates_in_range self Hr Hc) as Hcen.
  fold cy cx in Hcen.
  assert (Hrow : row_float self y = Return vy).
  { unfold row_float. rewrite Ho, Hps. cbn [subscript bind fst snd].
    rewrite (div_nonzero _ _ Hsy). cbn [bind]. rewrite Hcen. reflexivity. }
  assert (Hcol : column_float self x = Return vx).
  { unfold column_float. rewrite Ho, Hps. cbn [subscript bind fst snd].
    rewrite (div_nonzero _ _ Hsx). cbn [bind]. rewrite Hcen. reflexivity. }
  assert (Hrun : pixel_coordinates_from_arcsec_coordinates self (y, x)
                 = (py <- Double.to_int vy ;; px <- Double.to_int vx ;;
                    Return (py, px))).
  { unfold pixel_coordinates_from_arcsec_coordinates. cbn [fst snd].
    rewrite Hrow. cbn [bind]. rewrite Hcol. reflexivity. }
  split; [exact Hcen|]. split.
  - intros fy fx Hy Hx. rewrite Hrun, Hy, Hx, !to_int_finite. cbn [bind].
    split; [rewrite !int_truncate; reflexivity|]. split.
    + intros Hfy Hfx. rewrite (int_nonneg _ Hfy), (int_nonneg _ Hfx). reflexivity.
    + intros Hfy Hfx. rewrite (int_neg _ Hfy), (int_neg _ Hfx). reflexivity.
  - rewrite Hrun. intros [H|H]; rewrite H.
    + reflexivity.
    + destruct (Double.to_int vy) as [py|e] eqn:E; cbn [bind]; [reflexivity|].
      apply to_int_errors in E. subst. reflexivity.
Qed.

Lemma pixel_coordinates_truncate_witness :
  pixel_coordinates_from_arcsec_coordinates Examples.shifted_mask (2, 1)%Q
  = Return (Qfloor (1 # 2), Qfloor (1 # 2)).
Proof.
  apply (proj1 (proj2 (proj1 (proj2
           (pixel_coordinates_truncate Examples.shifted_mask 1 2 1 1 2 1
              eq_refl eq_refl
              ltac:(vm_compute; discriminate) ltac:(vm_compute; discriminate)
              ltac:(vm_compute; discriminate) ltac:(vm_compute; discriminate)))
           (1 # 2)%Q (1 # 2)%Q
           ltac:(vm_compute; reflexivity) ltac:(vm_compute; reflexivity))));
    vm_compute; discriminate.
Defined.

(** C4, as stated, fails: on a 3x3 mask of unit pixels centred at the
    origin, the arc-second coordinate (3, 0) is sent to row -1, the
    truncation of -1.5, where the floor is -2. *)
Lemma pixel_coordinates_not_floor :
  pixel_coordinates_from_arcsec_coordinates Examples.column_mask (3, 0)%Q
  = Return (-1, 1) /\
  Stated.floor_pixel_coordinates (shape (array Examples.column_mask))
    (0, 0)%Q (1, 1)%Q (3, 0)%Q = (-2, 1) /\
  pixel_coordinates_from_arcsec_coordinates Examples.column_mask (3, 0)%Q
  <> Return (Stated.floor_pixel_coordinates (shape (array Examples.column_mask))
               (0, 0)%Q (1, 1)%Q (3, 0)%Q).
Proof.
  split; [vm_compute; reflexivity|]. split; [reflexivity|].
  vm_compute. discriminate.
Qed.

(** Rounding is visible in the result: on a 1x1 mask with pixel scale 0.1
    the coordinate 0.15 gives [0.15 / 0.1 = 1.4999999999999998] and column
    1, where the exact quotient 1.5 would give column 2. *)
Example pixel_coordinates_rounding :
  pixel_coordinates_from_arcsec_coordinates
    (Examples.sub1 [[false]] (1 # 10, 1 # 10)%Q (0, 0)%Q) (0, 15 # 100)%Q
  = Return (0, 1) /\
  Stated.floor_pixel_coordinates (1, 1) (0, 0)%Q (1 # 10, 1 # 10)%Q (0, 15 # 100)%Q
  = (0, 2).
Proof. split; vm_compute; reflexivity. Qed.
(** ** Zoom region *)

Lemma int_half (d : Z) : 0 <= d -> int (inject_Z d / 2)%Q = d / 2.
Proof.
  intros Hd. unfold int. simpl.
  rewrite Z.mul_1_r. apply Z.quot_div_nonneg; lia.
Qed.

(** The zoom region is square up to one pixel: height and width differ by
    the parity of the difference of the two extents of the bounding box. *)
Lemma zoom_region_nearly_square (self : mask) (ya yb xa xb : Z) :
  _zoom_region self = Return [ya; yb; xa; xb] ->
  Z.abs ((yb - ya) - (xb - xa)) <= 1.
Proof.
  unfold _zoom_region. destruct (where_false (array self)) as [|p rest]; [discriminate|].
  set (y0 := amin (fst p) (map fst rest)). set (x0 := amin (snd p) (map snd rest)).
  set (y1 := amax (fst p) (map fst rest)). set (x1 := amax (snd p) (map snd rest)).
  destruct (y1 - y0 >? x1 - x0) eqn:E1; [|destruct (x1 - x0 >? y1 - y0) eqn:E2].
  - rewrite int_half by lia. intros H. inversion H; subst.
    pose proof (Z.div_mod (y1 - y0 - (x1 - x0)) 2 ltac:(lia)).
    pose proof (Z.mod_pos_bound (y1 - y0 - (x1 - x0)) 2 ltac:(lia)). lia.
  - rewrite int_half by lia. intros H. inversion H; subst.
    pose proof (Z.div_mod (x1 - x0 - (y1 - y0)) 2 ltac:(lia)).
    pose proof (Z.mod_pos_bound (x1 - x0 - (y1 - y0)) 2 ltac:(lia)). lia.
  - intros H. inversion H; subst. lia.
Qed.

(** C2 fails on the code: for the 3x3 mask whose unmasked pixels are (0, 1)
    and (1, 1) the bounding box is 2 rows by 1 column, the padding is
    [int(1 / 2.0) = 0], and the returned region [0, 2, 1, 2] is not square. *)
Theorem zoom_region_not_square :
  where_false (array Examples.column_mask) = [(0, 1); (1, 1)] /\
  _zoom_region Examples.column_mask = Return [0; 2; 1; 2] /\
  2 - 0 <> 2 - 1.
Proof.
  split; [reflexivity|]. split; [reflexivity|]. lia.
Qed.


(** ** Unmasked positions *)

Lemma where_row_In (row : list bool) :
  forall (y x0 : Z) (p : Z * Z),
    In p (where_row y x0 row) <->
    fst p = y /\ x0 <= snd p /\
    nth_error row (Z.to_nat (snd p - x0)) = Some false.
Proof.
  induction row as [|b t IH]; intros y x0 [py px]; simpl.
  - split; [tauto|]. intros (_ & _ & H). destruct (Z.to_nat (px - x0)); discriminate.
  - rewrite in_app_iff, IH. simpl.
    destruct (Z.eq_dec px x0) as [->|Hne].
    + rewrite Z.sub_diag. simpl. split.
      * intros [H|H]; [|lia]. destruct b; simpl in H; [tauto|].
        destruct H as [H|[]]. inversion H. auto with zarith.
      * intros (-> & _ & H). inversion H. left. simpl. auto.
    + split.
      * intros [H|(-> & Hle & H)].
        { destruct b; simpl in H; [tauto|]. destruct H as [H|[]].
          inversion H. lia. }
        { split; [reflexivity|]. split; [lia|].
          replace (Z.to_nat (px - x0)) with (S (Z.to_nat (px - (x0 + 1)))) by lia.
          exact H. }
      * intros (-> & Hle & H). right. split; [reflexivity|]. split; [lia|].
        replace (Z.to_nat (px - x0)) with (S (Z.to_nat (px - (x0 + 1)))) in H by lia.
        exact H.
Qed.

Lemma where_rows_In (a : ndarray2) :
  forall (y0 : Z) (p : Z * Z),
    In p (where_rows y0 a) <->
    y0 <= fst p /\ 0 <= snd p /\
    exists row : list bool,
      nth_error a (Z.to_nat (fst p - y0)) = Some row /\
      nth_error row (Z.to_nat (snd p)) = Some false.
Proof.
  induction a as [|r t IH]; intros y0 [py px]; simpl.
  - split; [tauto|]. intros (_ & _ & row & H & _).
    destruct (Z.to_nat (py - y0)); discriminate.
  - rewrite in_app_iff, IH, where_row_In. simpl. rewrite Z.sub_0_r.
    destruct (Z.eq_dec py y0) as [->|Hne].
    + rewrite Z.sub_diag. simpl. split.
      * intros [(_ & Hx & H)|(Hy & _)]; [|lia].
        split; [lia|]. split; [assumption|]. exists r. auto.
      * intros (_ & Hx & row & Hr & H). inversion Hr; subst. left. auto.
    + split.
      * intros [(Hy & _)|(Hy & Hx & row & Hr & H)]; [congruence|].
        split; [lia|]. split; [assumption|]. exists row. split; [|assumption].
        replace (Z.to_nat (py - y0)) with (S (Z.to_nat (py - (y0 + 1)))) by lia.
        exact Hr.
      * intros (Hy & Hx & row & Hr & H). right.
        split; [lia|]. split; [assumption|]. exists row. split; [|assumption].
        replace (Z.to_nat (py - y0)) with (S (Z.to_nat (py - (y0 + 1)))) in Hr by lia.
        exact Hr.
Qed.

(** [np.where(np.invert(a))] lists exactly the positions that hold [False]. *)
Lemma where_false_In (a : ndarray2) (y x : Z) :
  In (y, x) (where_false a) <-> get a y x = Some false.
Proof.
  unfold where_false, get. rewrite where_rows_In. simpl. rewrite Z.sub_0_r.
  split.
  - intros (Hy & Hx & row & Hr & H).
    replace (0 <=? y) with true by lia. replace (0 <=? x) with true by lia.
    simpl. rewrite Hr. exact H.
  - destruct (0 <=? y) eqn:Ey; [|discriminate].
    destruct (0 <=? x) eqn:Ex; [|discriminate]. simpl.
    destruct (nth_error a (Z.to_nat y)) as [row|] eqn:Hr; [|discriminate].
    intros H. split; [lia|]. split; [lia|]. exists row. auto.
Qed.

(** ** Reading arrays by position *)

Lemma nth_error_combine_range {A : Type} (l : list A) :
  forall s k : nat,
    nth_error (combine (map Z.of_nat (seq s (length l))) l) k
    = option_map (fun b => (Z.of_nat (s + k), b)) (nth_error l k).
Proof.
  induction l as [|h t IH]; intros s k; simpl.
  - destruct k; reflexivity.
  - destruct k as [|k]; simpl.
    + rewrite Nat.add_0_r. reflexivity.
    + rewrite IH. rewrite Nat.add_succ_r. reflexivity.
Qed.

Lemma nth_error_enumerate {A : Type} (l : list A) (k : nat) :
  nth_error (combine (SpecModel.range (Z.of_nat (length l))) l) k
  = option_map (fun b => (Z.of_nat k, b)) (nth_error l k).
Proof.
  unfold SpecModel.range. rewrite Nat2Z.id. apply nth_error_combine_range.
Qed.

Lemma get_imap2 (f : Z -> Z -> bool -> bool) (a : ndarray2) (y x : Z) :
  get (SpecModel.imap2 f a) y x = option_map (f y x) (get a y x).
Proof.
  unfold get, SpecModel.imap2.
  destruct (0 <=? y) eqn:Ey; [|reflexivity].
  destruct (0 <=? x) eqn:Ex; [|reflexivity]. cbn [andb].
  rewrite nth_error_map, nth_error_enumerate.
  destruct (nth_error a (Z.to_nat y)) as [row|]; [|reflexivity]. cbn [option_map fst snd].
  rewrite nth_error_map, nth_error_enumerate.
  destruct (nth_error row (Z.to_nat x)) as [b|]; [|reflexivity]. cbn [option_map fst snd].
  rewrite !Z2Nat.id by lia. reflexivity.
Qed.

Lemma get_inside (a : ndarray2) (y x : Z) :
  MaskMore.rectangular a ->
  (get a y x <> None <->
   0 <= y < Z.of_nat (length a) /\ 0 <= x < Z.of_nat (length (hd [] a))).
Proof.
  intros Hrect. unfold get.
  destruct (0 <=? y) eqn:Ey; cbn [andb];
    [|split; [intros H; exfalso; apply H; reflexivity|lia]].
  destruct (0 <=? x) eqn:Ex;
    [|split; [intros H; exfalso; apply H; reflexivity|lia]].
  destruct (nth_error a (Z.to_nat y)) as [row|] eqn:Hr.
  - assert (Hlen : length row = length (hd [] a)).
    { unfold MaskMore.rectangular in Hrect. rewrite Forall_forall in Hrect.
      apply Hrect. eapply nth_error_In. eassumption. }
    assert (Hy : (Z.to_nat y < length a)%nat)
      by (apply nth_error_Some; congruence).
    rewrite nth_error_Some, Hlen. lia.
  - apply nth_error_None in Hr. split; [congruence|lia].
Qed.

Lemma get_full_inside (v : bool) (a : ndarray2) (y x : Z) :
  get (full v (shape a)) y x <> None <->
  0 <= y < Z.of_nat (length a) /\ 0 <= x < Z.of_nat (length (hd [] a)).
Proof.
  unfold get, full, shape. cbn [fst snd]. rewrite !Nat2Z.id.
  destruct (0 <=? y) eqn:Ey; cbn [andb];
    [|split; [intros H; exfalso; apply H; reflexivity|lia]].
  destruct (0 <=? x) eqn:Ex;
    [|split; [intros H; exfalso; apply H; reflexivity|lia]].
  destruct (nth_error (repeat _ (length a)) (Z.to_nat y)) as [row|] eqn:Hr.
  - assert (Hy : (Z.to_nat y < length a)%nat).
    { rewrite <- (repeat_length (repeat v (length (hd [] a))) (length a)).
      apply nth_error_Some. congruence. }
    apply nth_error_In, repeat_spec in Hr. subst row.
    rewrite nth_error_Some, repeat_length. lia.
  - apply nth_error_None in Hr. rewrite repeat_length in Hr.
    split; [congruence|lia].
Qed.

Lemma get_full_None (a : ndarray2) (p : Z * Z) :
  MaskMore.rectangular a ->
  (get (full false (shape a)) (fst p) (snd p) = None <->
   get a (fst p) (snd p) = None).
Proof.
  intros Hrect.
  pose proof (get_inside a (fst p) (snd p) Hrect) as H1.
  pose proof (get_full_inside false a (fst p) (snd p)) as H2.
  destruct (get a (fst p) (snd p)), (get (full false (shape a)) (fst p) (snd p));
    split; intros H; try reflexivity; try discriminate; exfalso.
  - apply (proj2 H2); [apply H1; discriminate|reflexivity].
  - apply (proj2 H1); [apply H2; discriminate|reflexivity].
Qed.

Lemma get_full_value (a : ndarray2) (v b : bool) (y x : Z) :
  get (full v (shape a)) y x = Some b -> b = v.
Proof.
  unfold get, full. destruct ((0 <=? y) && (0 <=? x)); [|discriminate].
  destruct (nth_error _ (Z.to_nat y)) as [row|] eqn:Hr; [|discriminate].
  apply nth_error_In, repeat_spec in Hr. subst row.
  intros H. apply nth_error_In, repeat_spec in H. assumption.
Qed.

Lemma in_range (n k : Z) : In k (SpecModel.range n) <-> 0 <= k < n.
Proof.
  unfold SpecModel.range. rewrite in_map_iff. split.
  - intros (i & <- & Hi). apply in_seq in Hi. lia.
  - intros Hk. exists (Z.to_nat k). split; [lia|]. apply in_seq. lia.
Qed.

Lemma length_range (n : nat) : length (SpecModel.range (Z.of_nat n)) = n.
Proof.
  unfold SpecModel.range. rewrite length_map, length_seq. lia.
Qed.

Lemma positions_In (a : ndarray2) (p : Z * Z) :
  MaskMore.rectangular a ->
  (In p (SpecModel.positions a) <-> get a (fst p) (snd p) <> None).
Proof.
  intros Hrect. rewrite (get_inside _ _ _ Hrect).
  unfold SpecModel.positions. destruct p as [y x].
  rewrite in_prod_iff, !in_range. reflexivity.
Qed.

Lemma positions_length (a : ndarray2) :
  length (SpecModel.positions a) = (length a * length (hd [] a))%nat.
Proof.
  unfold SpecModel.positions. rewrite length_prod, !length_range. reflexivity.
Qed.

(** ** The exterior of the unmasked region *)

Lemma existsb_pointwise {A : Type} (f g : A -> bool) (l : list A) :
  (forall x, f x = g x) -> existsb f l = existsb g l.
Proof.
  intros Hfg. induction l as [|h t IH]; simpl; [reflexivity|].
  rewrite Hfg, IH. reflexivity.
Qed.

Lemma spread_ext (a : ndarray2) (f g : Z * Z -> bool) :
  (forall q, f q = g q) -> forall p, SpecModel.spread a f p = SpecModel.spread a g p.
Proof.
  intros Hfg p. unfold SpecModel.spread.
  destruct (get a (fst p) (snd p)); [|reflexivity].
  f_equal. apply existsb_pointwise. assumption.
Qed.

Lemma spread_mono (a : ndarray2) (f g : Z * Z -> bool) :
  (forall q, f q = true -> g q = true) ->
  forall p, SpecModel.spread a f p = true -> SpecModel.spread a g p = true.
Proof.
  intros Hfg p. unfold SpecModel.spread.
  destruct (get a (fst p) (snd p)); [|reflexivity].
  rewrite !andb_true_iff, !existsb_exists.
  intros (Hb & q & Hq & Hf). split; [assumption|]. exists q. auto.
Qed.

Lemma spread_n_ext (a : ndarray2) (f g : Z * Z -> bool) (n : nat) :
  (forall q, f q = g q) ->
  forall p, SpecModel.spread_n n a f p = SpecModel.spread_n n a g p.
Proof.
  intros Hfg. induction n as [|n IH]; simpl; [assumption|].
  apply spread_ext. assumption.
Qed.

Lemma spread_n_shift (a : ndarray2) (f : Z * Z -> bool) (n : nat) :
  forall p,
    SpecModel.spread_n n a (SpecModel.spread a f) p
    = SpecModel.spread a (SpecModel.spread_n n a f) p.
Proof.
  induction n as [|n IH]; simpl; [reflexivity|].
  apply spread_ext. assumption.
Qed.

Lemma exterior_at_grow (a ext : ndarray2) (p : Z * Z) :
  SpecModel.exterior_at (SpecModel.grow a ext) p
  = SpecModel.spread a (SpecModel.exterior_at ext) p.
Proof.
  unfold SpecModel.exterior_at at 1, SpecModel.grow, SpecModel.spread.
  rewrite get_imap2. destruct p as [y x]. cbn [fst snd].
  destruct (get a y x); reflexivity.
Qed.

Lemma exterior_at_grow_n (a : ndarray2) (n : nat) :
  forall (ext : ndarray2) (p : Z * Z),
    SpecModel.exterior_at (SpecModel.grow_n n a ext) p
    = SpecModel.spread_n n a (SpecModel.exterior_at ext) p.
Proof.
  induction n as [|n IH]; intros ext p; [reflexivity|].
  cbn [SpecModel.grow_n]. rewrite IH.
  rewrite (spread_n_ext a _ _ n (exterior_at_grow a ext)).
  apply spread_n_shift.
Qed.

Lemma forallb_false {A : Type} (f : A -> bool) (l : list A) :
  forallb f l = false -> exists x, In x l /\ f x = false.
Proof.
  induction l as [|h t IH]; simpl; [discriminate|].
  destruct (f h) eqn:E; simpl.
  - intros H. destruct (IH H) as (x & Hx & Hf). exists x. auto.
  - intros _. exists h. auto.
Qed.

Lemma filter_length_bound {A : Type} (f : A -> bool) (l : list A) :
  (length (filter f l) <= length l)%nat.
Proof.
  induction l as [|h t IH]; simpl; [lia|]. destruct (f h); simpl; lia.
Qed.

Lemma filter_length_mono {A : Type} (f g : A -> bool) (l : list A) :
  (forall x, f x = true -> g x = true) ->
  (length (filter f l) <= length (filter g l))%nat.
Proof.
  intros Hfg. induction l as [|h t IH]; simpl; [lia|].
  destruct (f h) eqn:Ef; [rewrite (Hfg _ Ef); simpl; lia|].
  destruct (g h); simpl; lia.
Qed.

Lemma filter_length_strict {A : Type} (f g : A -> bool) (l : list A) (x : A) :
  (forall x, f x = true -> g x = true) ->
  In x l -> f x = false -> g x = true ->
  (length (filter f l) < length (filter g l))%nat.
Proof.
  intros Hfg. induction l as [|h t IH]; simpl; [tauto|].
  pose proof (filter_length_mono f g t Hfg) as Hle.
  intros [->|Hin] Hf Hg.
  - rewrite Hf, Hg. simpl. lia.
  - specialize (IH Hin Hf Hg).
    destruct (f h) eqn:Ef; [rewrite (Hfg _ Ef); simpl; lia|].
    destruct (g h); simpl; lia.
Qed.

Lemma filter_length_full {A : Type} (f : A -> bool) (l : list A) :
  length (filter f l) = length l -> forall x, In x l -> f x = true.
Proof.
  induction l as [|h t IH]; simpl; [tauto|].
  pose proof (filter_length_bound f t) as Hle.
  destruct (f h) eqn:Ef; simpl; intros Hlen x [<-|Hin]; try assumption; try lia.
  apply IH; [lia|assumption].
Qed.

Section Exterior.

Variable a : ndarray2.
Hypothesis Hrect : MaskMore.rectangular a.

(** The exterior after [n] rounds, as a predicate. *)
Lemma seed_off_grid (p : Z * Z) :
  SpecModel.exterior_at (full false (shape a)) p = true <->
  get a (fst p) (snd p) = None.
Proof.
  rewrite <- (get_full_None a p Hrect). unfold SpecModel.exterior_at.
  destruct (get (full false (shape a)) (fst p) (snd p)) as [b|] eqn:E.
  - apply get_full_value in E. subst b. split; discriminate.
  - tauto.
Qed.

Lemma rounds_off_grid (n : nat) (p : Z * Z) :
  get a (fst p) (snd p) = None ->
  SpecModel.spread_n n a (SpecModel.exterior_at (full false (shape a))) p = true.
Proof.
  intros Hp. destruct n as [|n]; simpl.
  - apply seed_off_grid. assumption.
  - unfold SpecModel.spread. rewrite Hp. reflexivity.
Qed.

Lemma rounds_sound (n : nat) :
  forall p : Z * Z,
    SpecModel.spread_n n a (SpecModel.exterior_at (full false (shape a))) p = true ->
    Stated.reaches_outside a p.
Proof.
  induction n as [|n IH]; intros p; simpl.
  - intros H. apply Stated.reaches_off_grid. apply seed_off_grid. assumption.
  - unfold SpecModel.spread.
    destruct (get a (fst p) (snd p)) as [b|] eqn:E;
      [|intros _; apply Stated.reaches_off_grid; assumption].
    rewrite andb_true_iff, existsb_exists. intros (-> & q & Hq & Hf).
    eapply Stated.reaches_through; eauto.
Qed.

Lemma rounds_grow (n : nat) :
  forall p : Z * Z,
    SpecModel.spread_n n a (SpecModel.exterior_at (full false (shape a))) p = true ->
    SpecModel.spread_n (S n) a (SpecModel.exterior_at (full false (shape a))) p = true.
Proof.
  induction n as [|n IH]; intros p.
  - simpl. intros H. apply seed_off_grid in H.
    unfold SpecModel.spread. rewrite H. reflexivity.
  - cbn [SpecModel.spread_n]. apply spread_mono. exact IH.
Qed.

Lemma rounds_stay_stable (n : nat) :
  (forall p, SpecModel.spread_n (S n) a (SpecModel.exterior_at (full false (shape a))) p
             = SpecModel.spread_n n a (SpecModel.exterior_at (full false (shape a))) p) ->
  forall p, SpecModel.spread_n (S (S n)) a (SpecModel.exterior_at (full false (shape a))) p
            = SpecModel.spread_n (S n) a (SpecModel.exterior_at (full false (shape a))) p.
Proof.
  intros H p. cbn [SpecModel.spread_n]. apply spread_ext. exact H.
Qed.

(** After [n] rounds the exterior has stopped growing, or holds at least
    [n] pixels. *)
Lemma rounds_stable_or_counted (n : nat) :
  (forall p, SpecModel.spread_n (S n) a (SpecModel.exterior_at (full false (shape a))) p
             = SpecModel.spread_n n a (SpecModel.exterior_at (full false (shape a))) p)
  \/ (n <= length (filter (SpecModel.spread_n n a
                             (SpecModel.exterior_at (full false (shape a))))
                          (SpecModel.positions a)))%nat.
Proof.
  induction n as [|n IH]; [right; lia|].
  set (F := fun k => SpecModel.spread_n k a (SpecModel.exterior_at (full false (shape a)))) in *.
  change (SpecModel.spread_n (S (S n)) a (SpecModel.exterior_at (full false (shape a))))
    with (F (S (S n))).
  change (SpecModel.spread_n (S n) a (SpecModel.exterior_at (full false (shape a))))
    with (F (S n)) in *.
  change (SpecModel.spread_n n a (SpecModel.exterior_at (full false (shape a))))
    with (F n) in *.
  destruct (forallb (fun p => Bool.eqb (F (S n) p) (F n p)) (SpecModel.positions a))
    eqn:Est.
  - left. apply rounds_stay_stable. intros p.
    destruct (get a (fst p) (snd p)) as [b|] eqn:E.
    + rewrite forallb_forall in Est. apply eqb_prop. apply Est.
      apply positions_In; [assumption|]. congruence.
    + unfold F. rewrite !rounds_off_grid by assumption. reflexivity.
  - apply forallb_false in Est. destruct Est as (p & Hin & Hne).
    apply eqb_false_iff in Hne.
    assert (Hn : F n p = false).
    { destruct (F n p) eqn:E; [|reflexivity].
      exfalso. apply Hne. apply rounds_grow in E. exact E. }
    assert (HSn : F (S n) p = true).
    { destruct (F (S n) p); [reflexivity|]. congruence. }
    pose proof (filter_length_strict (F n) (F (S n)) _ p (rounds_grow n) Hin Hn HSn)
      as Hlt.
    destruct IH as [Hst|Hle]; [|right; lia].
    exfalso. apply Hne. apply Hst.
Qed.

Lemma rounds_stable :
  forall p,
    SpecModel.spread_n (S (length (SpecModel.positions a))) a
      (SpecModel.exterior_at (full false (shape a))) p
    = SpecModel.spread_n (length (SpecModel.positions a)) a
        (SpecModel.exterior_at (full false (shape a))) p.
Proof.
  destruct (rounds_stable_or_counted (length (SpecModel.positions a))) as [H|H];
    [exact H|].
  intros p.
  destruct (get a (fst p) (snd p)) as [b|] eqn:E;
    [|rewrite !rounds_off_grid by assumption; reflexivity].
  assert (Hp : SpecModel.spread_n (length (SpecModel.positions a)) a
                 (SpecModel.exterior_at (full false (shape a))) p = true).
  { apply (filter_length_full _ (SpecModel.positions a)).
    - pose proof (filter_length_bound
                    (SpecModel.spread_n (length (SpecModel.positions a)) a
                       (SpecModel.exterior_at (full false (shape a))))
                    (SpecModel.positions a)). lia.
    - apply positions_In; [assumption|]. congruence. }
  rewrite Hp. apply rounds_grow. assumption.
Qed.

Lemma rounds_complete (p : Z * Z) :
  Stated.reaches_outside a p ->
  SpecModel.spread_n (length (SpecModel.positions a)) a
    (SpecModel.exterior_at (full false (shape a))) p = true.
Proof.
  induction 1 as [p Hp|p q Hp Hq _ IH].
  - apply rounds_off_grid. assumption.
  - rewrite <- rounds_stable. cbn [SpecModel.spread_n].
    unfold SpecModel.spread. rewrite Hp. cbn [andb].
    apply existsb_exists. exists q. auto.
Qed.

(** The exterior that the flood fill computes is the set of positions
    reachable from outside the grid through masked pixels. *)
Lemma exterior_reaches_outside (p : Z * Z) :
  SpecModel.exterior_at (SpecModel.exterior a) p = true <->
  Stated.reaches_outside a p.
Proof.
  unfold SpecModel.exterior. rewrite exterior_at_grow_n, <- positions_length.
  split; [apply rounds_sound|apply rounds_complete].
Qed.

Lemma reaches_outside_masked (q : Z * Z) :
  Stated.reaches_outside a q -> SpecModel.masked_or_outside a q = true.
Proof.
  unfold SpecModel.masked_or_outside.
  intros H. destruct H as [p Hp|p q' Hp _ _]; rewrite Hp; reflexivity.
Qed.

Lemma is_edge_iff (p : Z * Z) :
  SpecModel.is_edge a p = true <->
  get a (fst p) (snd p) = Some false /\
  exists q, In q (SpecModel.neighbours4 p) /\ SpecModel.masked_or_outside a q = true.
Proof.
  unfold SpecModel.is_edge. rewrite andb_true_iff, negb_true_iff, existsb_exists.
  unfold SpecModel.masked_or_outside at 1.
  destruct (get a (fst p) (snd p)) as [[|]|]; split; intros [H1 H2];
    try discriminate; auto.
Qed.

Lemma is_border_iff (p : Z * Z) :
  SpecModel.is_border a p = true <->
  get a (fst p) (snd p) = Some false /\
  exists q, In q (SpecModel.neighbours4 p) /\ Stated.reaches_outside a q.
Proof.
  unfold SpecModel.is_border, SpecModel.on_outer_boundary.
  rewrite andb_true_iff, is_edge_iff, existsb_exists. split.
  - intros ((Hp & _) & q & Hq & He). split; [assumption|].
    exists q. split; [assumption|]. apply exterior_reaches_outside. assumption.
  - intros (Hp & q & Hq & Hr). split.
    + split; [assumption|]. exists q. auto using reaches_outside_masked.
    + exists q. split; [assumption|]. apply exterior_reaches_outside. assumption.
Qed.

End Exterior.

(** ** Edge and border pixels *)

Lemma indexes_from_ge (h : Z * Z -> bool) (l : list (Z * Z)) :
  forall i k : nat, In k (SpecModel.indexes_from h i l) -> (i <= k)%nat.
Proof.
  induction l as [|p t IH]; intros i k; simpl; [tauto|].
  rewrite in_app_iff. intros [H|H].
  - destruct (h p); simpl in H; [lia|tauto].
  - apply IH in H. lia.
Qed.

Section IndexLists.

Variables f g : Z * Z -> bool.

Lemma indexes_from_and_incl (l : list (Z * Z)) :
  forall i : nat,
    incl (SpecModel.indexes_from (fun p => f p && g p) i l) (SpecModel.indexes_from f i l).
Proof.
  induction l as [|p t IH]; intros i k; simpl; [tauto|].
  rewrite !in_app_iff. intros [H|H].
  - left. destruct (f p); [destruct (g p)|]; simpl in *; tauto.
  - right. apply IH. assumption.
Qed.

Lemma indexes_from_and_length (l : list (Z * Z)) :
  forall i : nat,
    (length (SpecModel.indexes_from (fun p => f p && g p) i l)
     <= length (SpecModel.indexes_from f i l))%nat.
Proof.
  induction l as [|p t IH]; intros i; simpl; [lia|].
  rewrite !length_app. specialize (IH (S i)).
  destruct (f p); [destruct (g p)|]; simpl; lia.
Qed.

Lemma indexes_from_and_strict (l : list (Z * Z)) :
  forall i k : nat,
    In k (SpecModel.indexes_from f i l) ->
    ~ In k (SpecModel.indexes_from (fun p => f p && g p) i l) ->
    (length (SpecModel.indexes_from (fun p => f p && g p) i l)
     < length (SpecModel.indexes_from f i l))%nat.
Proof.
  induction l as [|p t IH]; intros i k; simpl; [tauto|].
  rewrite !in_app_iff, !length_app.
  pose proof (indexes_from_and_length t (S i)) as Hle.
  specialize (IH (S i) k).
  destruct (f p); [destruct (g p)|]; simpl; intros Hin Hnot.
  - apply -> Nat.succ_lt_mono. apply IH; tauto.
  - lia.
  - apply IH; tauto.
Qed.

Lemma indexes_from_and_strict_inv (l : list (Z * Z)) :
  forall i : nat,
    (length (SpecModel.indexes_from (fun p => f p && g p) i l)
     < length (SpecModel.indexes_from f i l))%nat ->
    exists k : nat,
      In k (SpecModel.indexes_from f i l) /\
      ~ In k (SpecModel.indexes_from (fun p => f p && g p) i l).
Proof.
  induction l as [|p t IH]; intros i; simpl; [lia|].
  rewrite !length_app. specialize (IH (S i)).
  destruct (f p) eqn:Ef; [destruct (g p)|]; simpl; intros Hlt.
  - destruct IH as (k & Hin & Hnot); [lia|].
    exists k. split; [right; assumption|].
    apply indexes_from_ge in Hin. intros [Hk|Hk]; [lia|tauto].
  - exists i. split; [left; reflexivity|].
    intros Hi. apply indexes_from_ge in Hi. lia.
  - destruct IH as (k & Hin & Hnot); [lia|]. exists k. tauto.
Qed.

End IndexLists.


Lemma indexes_from_In (h : Z * Z -> bool) (l : list (Z * Z)) :
  forall i k : nat,
    In k (SpecModel.indexes_from h i l) <->
    (i <= k)%nat /\ exists p, nth_error l (k - i) = Some p /\ h p = true.
Proof.
  induction l as [|p t IH]; intros i k; simpl.
  - split; [tauto|]. intros (_ & q & H & _). destruct (k - i)%nat; discriminate.
  - rewrite in_app_iff, IH. split.
    + intros [H|(Hle & q & Hq & Hh)].
      * destruct (h p) eqn:E; simpl in H; [|tauto]. destruct H as [<-|[]].
        split; [lia|]. exists p. rewrite Nat.sub_diag. auto.
      * split; [lia|]. exists q. split; [|assumption].
        replace (k - i)%nat with (S (k - S i)) by lia. exact Hq.
    + intros (Hle & q & Hq & Hh).
      destruct (Nat.eq_dec k i) as [->|Hne].
      * left. rewrite Nat.sub_diag in Hq. simpl in Hq. inversion Hq; subst.
        rewrite Hh. left. reflexivity.
      * right. split; [lia|]. exists q. split; [|assumption].
        replace (k - i)%nat with (S (k - S i)) in Hq by lia. exact Hq.
Qed.

(** C3, as the specification's definitions have it, on the array of a mask
    (rows of one length): every border pixel is an edge pixel, so the border
    count never exceeds the edge count; the border pixels are the unmasked
    pixels with a 4-connected neighbour that is reachable from outside the
    grid through masked pixels; and the edge count is strictly larger exactly
    when some unmasked pixel lies next to a pixel of an interior hole and has
    no neighbour that is reachable from outside, as in an annulus whose ring
    is more than one pixel thick there. *)
Theorem border_indexes_subset_edge_indexes (self : mask) :
  MaskMore.rectangular (array self) ->
  incl (_border_1d_indexes SpecModel.border_1d_indexes_from_mask self)
       (_edge_1d_indexes SpecModel.edge_1d_indexes_from_mask self) /\
  (length (_border_1d_indexes SpecModel.border_1d_indexes_from_mask self)
   <= length (_edge_1d_indexes SpecModel.edge_1d_indexes_from_mask self))%nat /\
  (forall i : nat,
     In i (_border_1d_indexes SpecModel.border_1d_indexes_from_mask self) <->
     exists p q : Z * Z,
       nth_error (where_false (array self)) i = Some p /\
       In q (SpecModel.neighbours4 p) /\
       Stated.reaches_outside (array self) q) /\
  ((length (_border_1d_indexes SpecModel.border_1d_indexes_from_mask self)
    < length (_edge_1d_indexes SpecModel.edge_1d_indexes_from_mask self))%nat
   <->
   exists p h : Z * Z,
     In p (where_false (array self)) /\
     In h (SpecModel.neighbours4 p) /\
     Stated.interior_hole (array self) h /\
     forall q : Z * Z,
       In q (SpecModel.neighbours4 p) -> ~ Stated.reaches_outside (array self) q).
Proof.
  intros Hrect.
  unfold _border_1d_indexes, _edge_1d_indexes,
    SpecModel.border_1d_indexes_from_mask, SpecModel.edge_1d_indexes_from_mask.
  set (a := array self) in *.
  assert (Hunmasked : forall i p, nth_error (where_false a) i = Some p ->
                        get a (fst p) (snd p) = Some false).
  { intros i p Hp. apply nth_error_In in Hp. destruct p as [y x].
    apply where_false_In. assumption. }
  assert (Hborder : forall i : nat,
            In i (SpecModel.indexes_from (SpecModel.is_border a) 0 (where_false a)) <->
            exists p q : Z * Z,
              nth_error (where_false a) i = Some p /\
              In q (SpecModel.neighbours4 p) /\ Stated.reaches_outside a q).
  { intros i. rewrite indexes_from_In, Nat.sub_0_r. split.
    - intros (_ & p & Hp & Hb). apply (is_border_iff a Hrect) in Hb.
      destruct Hb as (_ & q & Hq & Hr). exists p, q. auto.
    - intros (p & q & Hp & Hq & Hr). split; [lia|]. exists p.
      split; [assumption|]. apply (is_border_iff a Hrect). eauto. }
  split; [|split; [|split; [exact Hborder|split]]].
  - apply indexes_from_and_incl.
  - apply indexes_from_and_length.
  - intros Hlt.
    apply (indexes_from_and_strict_inv (SpecModel.is_edge a)
             (SpecModel.on_outer_boundary a)) in Hlt.
    destruct Hlt as (k & Hin & Hnot).
    apply indexes_from_In in Hin. rewrite Nat.sub_0_r in Hin.
    destruct Hin as (_ & p & Hp & He).
    assert (Hnone : forall q, In q (SpecModel.neighbours4 p) ->
                      ~ Stated.reaches_outside a q).
    { intros q Hq Hr. apply Hnot. apply Hborder. exists p, q. auto. }
    apply (is_edge_iff a) in He. destruct He as (_ & h & Hh & Hm).
    exists p, h. split; [eapply nth_error_In; eassumption|].
    split; [assumption|]. split; [|assumption]. split; [|apply Hnone; assumption].
    unfold SpecModel.masked_or_outside in Hm.
    destruct (get a (fst h) (snd h)) as [b|] eqn:E; [subst b; reflexivity|].
    exfalso. apply (Hnone h Hh). apply Stated.reaches_off_grid. assumption.
  - intros (p & h & Hp & Hh & (Hm & _) & Hnone).
    apply In_nth_error in Hp. destruct Hp as (k & Hk).
    apply (indexes_from_and_strict (SpecModel.is_edge a)
             (SpecModel.on_outer_boundary a) _ 0%nat k).
    + apply indexes_from_In. rewrite Nat.sub_0_r. split; [lia|]. exists p.
      split; [assumption|]. apply is_edge_iff. split; [eapply Hunmasked; eassumption|].
      exists h. split; [assumption|].
      unfold SpecModel.masked_or_outside. rewrite Hm. reflexivity.
    + intros Hin. apply Hborder in Hin. destruct Hin as (p' & q & Hp' & Hq & Hr).
      rewrite Hk in Hp'. inversion Hp'; subst p'. exact (Hnone q Hq Hr).
Qed.

Lemma unmasked_not_reached (a : ndarray2) (p : Z * Z) :
  get a (fst p) (snd p) = Some false -> ~ Stated.reaches_outside a p.
Proof.
  intros Hp H. destruct H as [p Hn|p q Hm _ _]; congruence.
Qed.

Lemma border_indexes_subset_edge_indexes_witness :
  (length (_border_1d_indexes SpecModel.border_1d_indexes_from_mask
             (Examples.sub1 Examples.thick_ring (1, 1)%Q (0, 0)%Q))
   < length (_edge_1d_indexes SpecModel.edge_1d_indexes_from_mask
               (Examples.sub1 Examples.thick_ring (1, 1)%Q (0, 0)%Q)))%nat.
Proof.
  apply (proj2 (proj2 (proj2 (border_indexes_subset_edge_indexes
                                (Examples.sub1 Examples.thick_ring (1, 1)%Q (0, 0)%Q)
                                ltac:(vm_compute; repeat constructor))))).
  assert (Hnone : forall q : Z * Z,
            In q (SpecModel.neighbours4 (2, 3)) ->
            ~ Stated.reaches_outside Examples.thick_ring q).
  { intros q [<-|[<-|[<-|[<-|[]]]]].
    - apply unmasked_not_reached. vm_compute. reflexivity.
    - intros H. inversion H as [p Hp|p q Hp Hq Hr]; subst.
      + vm_compute in Hp. discriminate Hp.
      + destruct Hq as [<-|[<-|[<-|[<-|[]]]]]; revert Hr;
          apply unmasked_not_reached; vm_compute; reflexivity.
    - apply unmasked_not_reached. vm_compute. reflexivity.
    - apply unmasked_not_reached. vm_compute. reflexivity. }
  exists (2, 3), (3, 3). split; [vm_compute; tauto|].
  split; [vm_compute; tauto|]. split; [|exact Hnone].
  split; [vm_compute; reflexivity|].
  apply Hnone. vm_compute. tauto.
Defined.

(** C3, as stated, fails: the annulus of radii 0.5 and 1.5 on a 5x5 grid has
    an interior hole (its masked centre), yet each of its eight unmasked
    pixels also touches the exterior, so the edge count equals the border
    count. *)
Lemma thin_ring_edge_count_equals_border_count :
  Examples.thin_ring
  = [[true; true; true; true; true];
     [true; false; false; false; true];
     [true; false; true; false; true];
     [true; false; false; false; true];
     [true; true; true; true; true]] /\
  SpecModel.has_interior_hole Examples.thin_ring = true /\
  length (_edge_1d_indexes SpecModel.edge_1d_indexes_from_mask
            (Examples.sub1 Examples.thin_ring (1, 1)%Q (0, 0)%Q)) = 8%nat /\
  length (_border_1d_indexes SpecModel.border_1d_indexes_from_mask
            (Examples.sub1 Examples.thin_ring (1, 1)%Q (0, 0)%Q)) = 8%nat /\
  ~ (length (_edge_1d_indexes SpecModel.edge_1d_indexes_from_mask
               (Examples.sub1 Examples.thin_ring (1, 1)%Q (0, 0)%Q))
     > length (_border_1d_indexes SpecModel.border_1d_indexes_from_mask
                 (Examples.sub1 Examples.thin_ring (1, 1)%Q (0, 0)%Q)))%nat.
Proof.
  repeat split; try (vm_compute; reflexivity).
  vm_compute. lia.
Qed.
(** ** Regions *)

(** C5: a quadruple with [y0 >= y1], [x0 >= x1] or a negative coordinate is
    refused with the region error; a quadruple with [0 <= y0 < y1] and
    [0 <= x0 < x1] constructs a region with [total_rows = y1 - y0] and
    [total_columns = x1 - x0]. *)
Theorem region_constructor (y0 y1 x0 x1 : Z) :
  (y0 >= y1 \/ x0 >= x1 \/ y0 < 0 \/ y1 < 0 \/ x0 < 0 \/ x1 < 0 ->
   SpecModel.Region_new (y0, y1, x0, x1) = Raise RegionException) /\
  (0 <= y0 < y1 -> 0 <= x0 < x1 ->
   exists r : SpecModel.region,
     SpecModel.Region_new (y0, y1, x0, x1) = Return r /\
     r = SpecModel.mkRegion y0 y1 x0 x1 /\
     SpecModel.total_rows r = y1 - y0 /\
     SpecModel.total_columns r = x1 - x0).
Proof.
  unfold SpecModel.Region_new. split.
  - intros H.
    destruct ((y0 <? 0) || (y1 <? 0) || (x0 <? 0) || (x1 <? 0)) eqn:E; [reflexivity|].
    destruct (y0 >=? y1) eqn:Ey; [reflexivity|].
    destruct (x0 >=? x1) eqn:Ex; [reflexivity|].
    rewrite !orb_false_iff in E. lia.
  - intros Hy Hx.
    replace ((y0 <? 0) || (y1 <? 0) || (x0 <? 0) || (x1 <? 0)) with false
      by (symmetry; rewrite !orb_false_iff; lia).
    replace (y0 >=? y1) with false by lia.
    replace (x0 >=? x1) with false by lia.
    eexists. repeat split.
Qed.

Lemma region_constructor_witness :
  SpecModel.Region_new (2, 1, 2, 2) = Raise RegionException /\
  (exists r : SpecModel.region,
     SpecModel.Region_new (0, 1, 2, 3) = Return r /\
     r = SpecModel.mkRegion 0 1 2 3 /\
     SpecModel.total_rows r = 1 - 0 /\
     SpecModel.total_columns r = 3 - 2).
Proof.
  split.
  - apply (proj1 (region_constructor 2 1 2 2)). lia.
  - apply (proj2 (region_constructor 0 1 2 3)); lia.
Defined.

(** The cases of [TestConstructor] in [test_region.py]. *)
Example test_region_constructor :
  SpecModel.Region_new (0, 1, 2, 3) = Return (SpecModel.mkRegion 0 1 2 3) /\
  map SpecModel.Region_new
    [(2, 2, 1, 2); (2, 1, 2, 2); (2, 1, 1, 2); (0, 1, 3, 2);
     (-1, 0, 1, 2); (0, -1, 1, 2); (0, 0, -1, 2); (0, 1, 2, -1)]
  = repeat (Raise RegionException) 8.
Proof. split; reflexivity. Qed.

(** [test__extracts_2x2_region_of_3x3_array] and
    [test__extracts_2x3_region_of_3x3_array] of [test_region.py]. *)
Example test_region_extract :
  SpecModel.extract (SpecModel.mkRegion 0 2 0 2) [[1; 2; 3]; [4; 5; 6]; [7; 8; 9]]
  = [[1; 2]; [4; 5]] /\
  SpecModel.extract (SpecModel.mkRegion 1 3 0 3) [[1; 2; 3]; [4; 5; 6]; [7; 8; 9]]
  = [[4; 5; 6]; [7; 8; 9]].
Proof. split; reflexivity. Qed.

(** ** Coordinate grids *)

Lemma ScaledMask_new_plain_inv (c : mask_class) (a : ndarray2)
    (ps : option (Q * Q)) (ss : Z) (o : option (Q * Q)) (m : mask) :
  ScaledMask_new c (Plain a) ps ss o = Return m ->
  exists (l : Z) (fr : Q), m = mkMask c a ps (Some ss) (Some l) (Some fr) o.
Proof.
  unfold ScaledMask_new, AbstractSubMask_new, AbstractMask_new, __array_finalize__.
  cbn [bind].
  destruct (Double.int_square ss) as [l|e]; cbn [bind]; [|discriminate].
  destruct (Double.one_over l) as [fr|e]; cbn [bind]; [|discriminate].
  destruct ps as [[sy sx]|]; [|discriminate].
  destruct (Qle_bool sy 0 || Qle_bool sx 0); [discriminate|].
  cbn [cls array sub_size sub_length sub_fraction].
  intros H. inversion H. exists l, fr. reflexivity.
Qed.

(** C8: the 3x3 all-unmasked Scaled Mask with [pixel_scales = (1.0, 1.0)]
    and [origin = (0, 0)] has the unmasked grid
    [(1,-1), (1,0), (1,1), (0,-1), (0,0), (0,1), (-1,-1), (-1,0), (-1,1)]:
    the entry of row [r] and column [c] sits at position [3 r + c] and is
    [(1 - r, c - 1)], so y decreases down the rows and x increases along the
    columns. *)
Theorem unmasked_grid_3x3 (ss : Z) (m : mask) :
  unmasked_from_shape_pixel_scales_and_sub_size
    (3, 3) (Some (1, 1)%Q) ss (Some (0, 0)%Q) false = Return m ->
  exists g : list (Q * Q),
    unmasked_grid SpecModel.grid_1d_from_shape_pixel_scales_sub_size_and_origin m
    = Return g /\
    Stated.same_grid g
      [(1, -1); (1, 0); (1, 1); (0, -1); (0, 0); (0, 1); (-1, -1); (-1, 0); (-1, 1)]%Q /\
    (forall r c : Z, 0 <= r < 3 -> 0 <= c < 3 ->
       exists y x : Q,
         nth_error g (Z.to_nat (3 * r + c)) = Some (y, x) /\
         (y == 1 - inject_Z r)%Q /\ (x == inject_Z c - 1)%Q).
Proof.
  unfold unmasked_from_shape_pixel_scales_and_sub_size. cbn [full fst snd].
  intros H. apply ScaledMask_new_plain_inv in H.
  destruct H as (l & fr & ->).
  eexists. split; [reflexivity|]. split.
  - unfold Stated.same_grid. vm_compute. repeat constructor.
  - intros r c Hr Hc.
    assert (Er : r = 0 \/ r = 1 \/ r = 2) by lia.
    assert (Ec : c = 0 \/ c = 1 \/ c = 2) by lia.
    destruct Er as [-> | [-> | ->]]; destruct Ec as [-> | [-> | ->]];
      eexists; eexists; (split; [reflexivity|split; reflexivity]).
Qed.

Lemma unmasked_grid_3x3_witness :
  exists g : list (Q * Q),
    unmasked_grid SpecModel.grid_1d_from_shape_pixel_scales_sub_size_and_origin
      (Examples.sub1 (full false (3, 3)) (1, 1)%Q (0, 0)%Q)
    = Return g /\
    Stated.same_grid g
      [(1, -1); (1, 0); (1, 1); (0, -1); (0, 0); (0, 1); (-1, -1); (-1, 0); (-1, 1)]%Q /\
    (forall r c : Z, 0 <= r < 3 -> 0 <= c < 3 ->
       exists y x : Q,
         nth_error g (Z.to_nat (3 * r + c)) = Some (y, x) /\
         (y == 1 - inject_Z r)%Q /\ (x == inject_Z c - 1)%Q).
Proof.
  apply (unmasked_grid_3x3 1). vm_compute. reflexivity.
Defined.

(** * Further properties of the code *)

Import MaskMore.


(** ** Unmasked pixels *)

Lemma where_row_length (row : list bool) :
  forall y x0 : Z,
    Z.of_nat (length (where_row y x0 row))
    = Z.of_nat (length row) - Z.of_nat (count_occ bool_dec row true).
Proof.
  induction row as [|b t IH]; intros y x0; [reflexivity|].
  simpl where_row. rewrite length_app, Nat2Z.inj_add, IH.
  destruct b; simpl length; simpl count_occ.
  - destruct (bool_dec true true); [|congruence]. lia.
  - destruct (bool_dec false true); [discriminate|]. lia.
Qed.

Lemma where_rows_length (a : ndarray2) (cols : nat) :
  Forall (fun row => length row = cols) a ->
  forall y0 : Z,
    Z.of_nat (length (where_rows y0 a))
    = Z.of_nat (length a) * Z.of_nat cols - np_sum a.
Proof.
  induction 1 as [|row t Hrow Ht IH]; intros y0; [reflexivity|].
  simpl where_rows. rewrite length_app, Nat2Z.inj_add, where_row_length, IH.
  unfold np_sum. cbn [map fold_right length]. rewrite Hrow, Nat2Z.inj_succ. lia.
Qed.

Lemma np_sum_nonneg (a : ndarray2) : 0 <= np_sum a.
Proof.
  unfold np_sum. induction a as [|r t IH]; cbn [map fold_right]; lia.
Qed.

(** [pixels_in_mask], the size of the array minus the sum of its entries,
    is the number of unmasked pixels, and lies between 0 and the size. *)
Theorem pixels_in_mask_counts_unmasked (self : mask) :
  rectangular (array self) ->
  pixels_in_mask self = Z.of_nat (length (where_false (array self))) /\
  0 <= pixels_in_mask self <= np_size (array self).
Proof.
  intros Hrect. unfold pixels_in_mask, np_size, where_false, shape. simpl.
  rewrite (where_rows_length _ _ Hrect). split; [reflexivity|].
  pose proof (where_rows_length _ _ Hrect 0) as H.
  pose proof (np_sum_nonneg (array self)). lia.
Qed.

Lemma pixels_in_mask_counts_unmasked_witness :
  pixels_in_mask Examples.column_mask
  = Z.of_nat (length (where_false (array Examples.column_mask))) /\
  0 <= pixels_in_mask Examples.column_mask
    <= np_size (array Examples.column_mask).
Proof.
  apply (pixels_in_mask_counts_unmasked Examples.column_mask).
  repeat constructor.
Defined.

Lemma np_sum_repeat (row : list bool) (n : nat) :
  np_sum (repeat row n) = Z.of_nat n * Z.of_nat (count_occ bool_dec row true).
Proof.
  unfold np_sum. induction n as [|n IH]; [reflexivity|].
  simpl repeat. simpl map. simpl fold_right. rewrite IH. lia.
Qed.

Lemma count_occ_repeat (b : bool) (n : nat) :
  count_occ bool_dec (repeat b n) true = if b then n else O.
Proof.
  induction n as [|n IH]; simpl; [destruct b; reflexivity|].
  rewrite IH. destruct b; destruct (bool_dec _ _); congruence.
Qed.

Lemma np_size_full (v : bool) (r c : Z) :
  0 <= r -> 0 <= c -> np_size (full v (r, c)) = r * c.
Proof.
  intros Hr Hc. unfold np_size, full, shape. simpl.
  rewrite repeat_length.
  destruct (Z.to_nat r) eqn:E; simpl hd.
  - assert (r = 0) by lia. subst r. reflexivity.
  - rewrite repeat_length, <- E, !Z2Nat.id by assumption. reflexivity.
Qed.

(** [PixelMask.unmasked_from_shape]: a negative dimension is a [ValueError];
    otherwise the mask is returned, without pixel scales, origin or sub-grid,
    and all of its [rows * cols] pixels are unmasked, or none of them when
    [invert] is set. *)
Theorem unmasked_from_shape_pixels (r c : Z) (invert : bool) :
  (r < 0 \/ c < 0 ->
   unmasked_from_shape PixelMask (r, c) invert = Raise ValueError) /\
  (0 <= r -> 0 <= c ->
   exists m : mask,
     unmasked_from_shape PixelMask (r, c) invert = Return m /\
     pixels_in_mask m = (if invert then 0 else r * c) /\
     pixel_scales m = None /\ origin m = None /\ sub_size m = None).
Proof.
  unfold unmasked_from_shape, np_full. simpl. split.
  - intros H. replace ((r <? 0) || (c <? 0)) with true; [reflexivity|].
    symmetry. apply orb_true_iff. lia.
  - intros Hr Hc. replace ((r <? 0) || (c <? 0)) with false
      by (symmetry; apply orb_false_iff; lia).
    simpl. eexists. split; [reflexivity|]. simpl.
    split; [|auto]. unfold pixels_in_mask. simpl.
    destruct invert.
    + unfold full. simpl. rewrite map_repeat, map_repeat.
      change (negb false) with true.
      pose proof (np_size_full true r c Hr Hc) as Hs. unfold full in Hs.
      simpl in Hs. rewrite Hs, np_sum_repeat, count_occ_repeat. lia.
    + rewrite (np_size_full false r c Hr Hc). unfold full. simpl.
      rewrite np_sum_repeat, count_occ_repeat. lia.
Qed.

Lemma unmasked_from_shape_pixels_witness :
  unmasked_from_shape PixelMask (-1, 3) false = Raise ValueError /\
  (exists m : mask,
     unmasked_from_shape PixelMask (4, 3) false = Return m /\
     pixels_in_mask m = (if false then 0 else 4 * 3) /\
     pixel_scales m = None /\ origin m = None /\ sub_size m = None).
Proof.
  split.
  - apply (proj1 (unmasked_from_shape_pixels (-1) 3 false)). lia.
  - apply (proj2 (unmasked_from_shape_pixels 4 3 false)); lia.
Defined.

(** ** Zoom region, continued *)

Lemma amin_le (h : Z) (t : list Z) :
  amin h t <= h /\ forall z : Z, In z t -> amin h t <= z.
Proof.
  unfold amin. induction t as [|a t [IHh IHt]]; simpl.
  - split; [lia|tauto].
  - split; [lia|]. intros z [->|Hz]; [lia|].
    specialize (IHt z Hz). lia.
Qed.

Lemma amax_ge (h : Z) (t : list Z) :
  h <= amax h t /\ forall z : Z, In z t -> z <= amax h t.
Proof.
  unfold amax. induction t as [|a t [IHh IHt]]; simpl.
  - split; [lia|tauto].
  - split; [lia|]. intros z [->|Hz]; [lia|].
    specialize (IHt z Hz). lia.
Qed.

(** The zoom region of an all-masked mask is a [ValueError], the minimum of
    an empty index array; a mask with an unmasked pixel has a zoom region of
    four bounds. *)
Theorem zoom_region_of_empty_mask (self : mask) :
  (_zoom_region self = Raise ValueError <->
   forall y x : Z, get (array self) y x <> Some false) /\
  ((exists y x : Z, get (array self) y x = Some false) ->
   exists ya yb xa xb : Z, _zoom_region self = Return [ya; yb; xa; xb]).
Proof.
  unfold _zoom_region.
  destruct (where_false (array self)) as [|[py px] rest] eqn:W.
  - split.
    + split; [|reflexivity]. intros _ y x H.
      apply where_false_In in H. rewrite W in H. exact H.
    + intros (y & x & H). apply where_false_In in H. rewrite W in H. destruct H.
  - assert (Hp : get (array self) py px = Some false).
    { apply where_false_In. rewrite W. left. reflexivity. }
    split.
    + split.
      * repeat match goal with |- context [if ?b then _ else _] => destruct b end;
          discriminate.
      * intros H. exfalso. exact (H py px Hp).
    + intros _.
      repeat match goal with |- context [if ?b then _ else _] => destruct b end;
        repeat eexists.
Qed.

Lemma zoom_region_of_empty_mask_witness :
  exists ya yb xa xb : Z,
    _zoom_region Examples.shifted_mask = Return [ya; yb; xa; xb].
Proof.
  apply (proj2 (zoom_region_of_empty_mask Examples.shifted_mask)).
  exists 1, 1. reflexivity.
Defined.

(** The zoom region encloses every unmasked pixel. *)
Theorem zoom_region_encloses_unmasked (self : mask) (ya yb xa xb : Z) :
  _zoom_region self = Return [ya; yb; xa; xb] ->
  forall y x : Z, get (array self) y x = Some false ->
    ya <= y < yb /\ xa <= x < xb.
Proof.
  unfold _zoom_region.
  destruct (where_false (array self)) as [|p rest] eqn:W; [discriminate|].
  intros Hz y x Hg. apply where_false_In in Hg. rewrite W in Hg.
  pose proof (amin_le (fst p) (map fst rest)) as [Hy0 Hy0'].
  pose proof (amin_le (snd p) (map snd rest)) as [Hx0 Hx0'].
  pose proof (amax_ge (fst p) (map fst rest)) as [Hy1 Hy1'].
  pose proof (amax_ge (snd p) (map snd rest)) as [Hx1 Hx1'].
  assert (Hy : amin (fst p) (map fst rest) <= y <= amax (fst p) (map fst rest)).
  { destruct Hg as [Hg|Hg]; [subst p; cbn [fst snd] in *; lia|].
    pose proof (in_map fst _ _ Hg) as Hin. cbn [fst snd] in Hin.
    specialize (Hy0' _ Hin). specialize (Hy1' _ Hin). lia. }
  assert (Hx : amin (snd p) (map snd rest) <= x <= amax (snd p) (map snd rest)).
  { destruct Hg as [Hg|Hg]; [subst p; cbn [fst snd] in *; lia|].
    pose proof (in_map snd _ _ Hg) as Hin. cbn [fst snd] in Hin.
    specialize (Hx0' _ Hin). specialize (Hx1' _ Hin). lia. }
  revert Hz.
  set (y0 := amin (fst p) (map fst rest)) in *.
  set (x0 := amin (snd p) (map snd rest)) in *.
  set (y1 := amax (fst p) (map fst rest)) in *.
  set (x1 := amax (snd p) (map snd rest)) in *.
  destruct (y1 - y0 >? x1 - x0) eqn:E1; [|destruct (x1 - x0 >? y1 - y0) eqn:E2].
  - rewrite int_half by lia. intros H. inversion H; subst.
    pose proof (Z.div_pos (y1 - y0 - (x1 - x0)) 2 ltac:(lia) ltac:(lia)). lia.
  - rewrite int_half by lia. intros H. inversion H; subst.
    pose proof (Z.div_pos (x1 - x0 - (y1 - y0)) 2 ltac:(lia) ltac:(lia)). lia.
  - intros H. inversion H; subst. lia.
Qed.

Lemma zoom_region_encloses_unmasked_witness :
  0 <= 1 < 2 /\ 1 <= 1 < 2.
Proof.
  apply (zoom_region_encloses_unmasked Examples.column_mask 0 2 1 2);
    reflexivity.
Defined.

Lemma zoom_region_nearly_square_witness :
  Z.abs ((2 - 0) - (2 - 1)) <= 1.
Proof.
  apply (zoom_region_nearly_square Examples.column_mask 0 2 1 2). reflexivity.
Defined.


(** ** Constructing and re-sampling Scaled Masks *)






(** A Scaled Mask, written out field by field. *)
Lemma is_ScaledMask_eta (self : mask) :
  is_ScaledMask self ->
  exists (sy sx : Q) (ss l : Z) (fr : Q),
    (0 < sy)%Q /\ (0 < sx)%Q /\ ss <> 0 /\
    Double.int_square ss = Return l /\ Double.one_over l = Return fr /\
    self = mkMask ScaledMask (array self) (Some (sy, sx)) (Some ss)
             (Some l) (Some fr) (origin self).
Proof.
  intros HS. apply is_ScaledMask_inv in HS.
  destruct HS as (Hc & (sy & sx & Hps & Hy & Hx)
                  & (ss & l & fr & Hss & Hn & Hl & Hsl & Hfr & Hsf)).
  exists sy, sx, ss, l, fr. repeat split; try assumption.
  destruct self; simpl in *. congruence.
Qed.


(** Re-sampling a Scaled Mask runs the constructor on the mask itself: the
    attributes that [__array_finalize__] copies are overwritten. *)
Lemma new_mask_with_new_sub_size_fields (a : ndarray2) (sy sx : Q) (ss l : Z)
    (fr : Q) (o : option (Q * Q)) (s : Z) :
  (0 < sy)%Q -> (0 < sx)%Q ->
  Double.int_square ss = Return l -> Double.one_over l = Return fr ->
  new_mask_with_new_sub_size
    (mkMask ScaledMask a (Some (sy, sx)) (Some ss) (Some l) (Some fr) o) s
  = (l' <- Double.int_square s ;;
     fr' <- Double.one_over l' ;;
     Return (mkMask ScaledMask a (Some (sy, sx)) (Some s) (Some l') (Some fr') o)).
Proof.
  intros Hy Hx Hl Hfr.
  unfold new_mask_with_new_sub_size, class_call, ScaledMask_new,
    AbstractSubMask_new, AbstractMask_new, __array_finalize__.
  cbn [cls array sub_size sub_length sub_fraction pixel_scales origin].
  rewrite Hl. cbn [bind]. rewrite Hfr. cbn [bind].
  destruct (Double.int_square s) as [l'|e]; cbn [bind]; [|reflexivity].
  destruct (Double.one_over l') as [fr'|e]; cbn [bind]; [|reflexivity].
  cbn [cls array sub_size sub_length sub_fraction pixel_scales origin].
  rewrite (Qle_bool_0_false _ Hy), (Qle_bool_0_false _ Hx). reflexivity.
Qed.



(** [binned_up_mask_sub_size_1_from_mask] is [binned_up_mask_from_bin_up_factor]
    applied to the mask re-sampled to [sub_size = 1], whatever the binning
    factor. *)
Theorem binned_up_sub_size_1_composes
    (binning_util : ndarray2 -> Z -> ndarray2) (self : mask) (f : Z) :
  is_ScaledMask self ->
  binned_up_mask_sub_size_1_from_mask binning_util self f
  = (m1 <- new_mask_with_new_sub_size self 1 ;;
     binned_up_mask_from_bin_up_factor binning_util m1 f).
Proof.
  intros HS.
  destruct (is_ScaledMask_eta self HS)
    as (sy & sx & ss & l0 & fr0 & Hy & Hx & Hss & Hl0 & Hfr0 & E).
  rewrite E at 2.
  rewrite (new_mask_with_new_sub_size_fields _ _ _ _ _ _ _ 1 Hy Hx Hl0 Hfr0).
  rewrite int_square_1. cbn [bind]. rewrite one_over_1. cbn [bind].
  unfold binned_up_mask_sub_size_1_from_mask, binned_up_mask_from_bin_up_factor.
  rewrite E. reflexivity.
Qed.

Lemma binned_up_sub_size_1_composes_witness :
  binned_up_mask_sub_size_1_from_mask
    SpecModel.binned_up_mask_from_mask_2d_and_bin_up_factor
    Examples.shifted_mask 2
  = (m1 <- new_mask_with_new_sub_size Examples.shifted_mask 1 ;;
     binned_up_mask_from_bin_up_factor
       SpecModel.binned_up_mask_from_mask_2d_and_bin_up_factor m1 2).
Proof.
  apply (binned_up_sub_size_1_composes
           SpecModel.binned_up_mask_from_mask_2d_and_bin_up_factor
           Examples.shifted_mask 2 shifted_mask_is_ScaledMask).
Defined.

(** ** Resizing, continued *)

(** The mask that [ScaledMask.resized_mask_from_new_shape] returns keeps the
    parent's pixel scales and sub-grid, but its [origin] is the pixel centre
    handed to the resize helper, the sentinel (-1, -1) when no centre is
    given; and an arc-second centre gives the same result as the pixel centre
    it converts to. *)
Theorem resized_mask_metadata
    (resize_util : ndarray2 -> Z * Z -> Z * Z -> ndarray2)
    (self : mask) (new_shape : Z * Z) :
  is_ScaledMask self ->
  (forall new_centre_pixels : option (Z * Z),
     let centre := match new_centre_pixels with
                   | Some p => p
                   | None => (-1, -1)
                   end in
     resized_mask_from_new_shape resize_util self new_shape new_centre_pixels None
     = Return (mkMask ScaledMask (resize_util (array self) new_shape centre)
                 (pixel_scales self) (sub_size self) (sub_length self)
                 (sub_fraction self) (Some (Q_of_pixels centre)))) /\
  (forall (a : Q * Q) (p : Z * Z),
     pixel_coordinates_from_arcsec_coordinates self a = Return p ->
     resized_mask_from_new_shape resize_util self new_shape None (Some a)
     = resized_mask_from_new_shape resize_util self new_shape (Some p) None).
Proof.
  intros HS.
  destruct (is_ScaledMask_eta self HS)
    as (sy & sx & ss & l0 & fr0 & Hy & Hx & Hss & Hl0 & Hfr0 & E).
  assert (Hps : pixel_scales self = Some (sy, sx)) by (rewrite E; reflexivity).
  assert (Hs : sub_size self = Some ss) by (rewrite E; reflexivity).
  assert (Hl : sub_length self = Some l0) by (rewrite E; reflexivity).
  assert (Hf : sub_fraction self = Some fr0) by (rewrite E; reflexivity).
  assert (Hc : cls self = ScaledMask) by (rewrite E; reflexivity).
  split.
  - intros ncp centre. unfold resized_mask_from_new_shape.
    rewrite Hps, Hs, Hl, Hf, Hc.
    destruct ncp as [p|]; cbn [bind getattr class_call];
      rewrite (ScaledMask_new_plain _ _ _ _ _ _ _ _ Hy Hx Hl0 Hfr0); reflexivity.
  - intros a p Hp. unfold resized_mask_from_new_shape. rewrite Hp. reflexivity.
Qed.

Lemma resized_mask_metadata_witness :
  resized_mask_from_new_shape
    SpecModel.resized_array_2d_from_array_2d_and_resized_shape
    Examples.shifted_mask (5, 5) None None
  = Return (mkMask ScaledMask
              (SpecModel.resized_array_2d_from_array_2d_and_resized_shape
                 (array Examples.shifted_mask) (5, 5) (-1, -1))
              (pixel_scales Examples.shifted_mask)
              (sub_size Examples.shifted_mask)
              (sub_length Examples.shifted_mask)
              (sub_fraction Examples.shifted_mask)
              (Some (Q_of_pixels (-1, -1)))) /\
  resized_mask_from_new_shape
    SpecModel.resized_array_2d_from_array_2d_and_resized_shape
    Examples.shifted_mask (5, 5) None (Some (2, 1)%Q)
  = resized_mask_from_new_shape
      SpecModel.resized_array_2d_from_array_2d_and_resized_shape
      Examples.shifted_mask (5, 5) (Some (0, 0)) None.
Proof.
  split.
  - apply (proj1 (resized_mask_metadata
                    SpecModel.resized_array_2d_from_array_2d_and_resized_shape
                    Examples.shifted_mask (5, 5) shifted_mask_is_ScaledMask) None).
  - apply (proj2 (resized_mask_metadata
                    SpecModel.resized_array_2d_from_array_2d_and_resized_shape
                    Examples.shifted_mask (5, 5) shifted_mask_is_ScaledMask)).
    vm_compute. reflexivity.
Defined.



(** ** Edge and border masks *)

Lemma set_nth_spec {A : Type} (l : list A) :
  forall (n : nat) (v : A) (l' : list A),
    set_nth l n v = Some l' ->
    length l' = length l /\
    forall k : nat, nth_error l' k = if Nat.eqb k n then Some v else nth_error l k.
Proof.
  induction l as [|h t IH]; intros n v l'; simpl; [discriminate|].
  destruct n as [|n].
  - intros H. inversion H; subst. split; [reflexivity|].
    intros [|k]; reflexivity.
  - destruct (set_nth t n v) as [t'|] eqn:E; [|discriminate].
    intros H. inversion H; subst. destruct (IH _ _ _ E) as [Hlen Hnth].
    split; [simpl; congruence|]. intros [|k]; simpl; [reflexivity|apply Hnth].
Qed.

Lemma set_spec (a a' : ndarray2) (y x : nat) (v : bool) :
  set a y x v = Return a' ->
  map (@length bool) a' = map (@length bool) a /\
  forall y' x' : nat,
    get_nat a' y' x'
    = if Nat.eqb y' y && Nat.eqb x' x then Some v else get_nat a y' x'.
Proof.
  unfold set. destruct (nth_error a y) as [row|] eqn:Hrow; [|discriminate].
  destruct (set_nth row x v) as [row'|] eqn:Hr; [|discriminate].
  destruct (set_nth a y row') as [a0|] eqn:Ha; [|discriminate].
  intros H. inversion H; subst a0; clear H.
  destruct (set_nth_spec _ _ _ _ Hr) as [Hlen Hnr].
  destruct (set_nth_spec _ _ _ _ Ha) as [Hlena Hna].
  split.
  - apply nth_error_ext. intros k. rewrite !nth_error_map, Hna.
    destruct (Nat.eqb k y) eqn:E; [|reflexivity].
    apply Nat.eqb_eq in E. subst k. rewrite Hrow. simpl. congruence.
  - intros y' x'. unfold get_nat. rewrite Hna.
    destruct (Nat.eqb y' y) eqn:E; simpl; [|reflexivity].
    apply Nat.eqb_eq in E. subst y'. rewrite Hrow. apply Hnr.
Qed.

Lemma set_all_spec (idx : list (nat * nat)) :
  forall a a' : ndarray2,
    set_all a idx false = Return a' ->
    map (@length bool) a' = map (@length bool) a /\
    forall y x : nat,
      get_nat a' y x = Some false <->
      get_nat a y x = Some false \/ In (y, x) idx.
Proof.
  induction idx as [|[y0 x0] rest IH]; intros a a'; simpl.
  - intros H. inversion H; subst. split; [reflexivity|]. intros y x. tauto.
  - destruct (set a y0 x0 false) as [a1|e] eqn:E; simpl; [|discriminate].
    intros H. destruct (IH _ _ H) as [Hlen Hget].
    destruct (set_spec _ _ _ _ _ E) as [Hlen1 Hget1].
    split; [congruence|]. intros y x. rewrite Hget, Hget1.
    destruct (Nat.eqb_spec y y0) as [->|Hy]; destruct (Nat.eqb_spec x x0) as [->|Hx];
      simpl; intuition congruence.
Qed.

Lemma full_true_get_nat (shp : Z * Z) (y x : nat) :
  get_nat (full true shp) y x <> Some false.
Proof.
  unfold get_nat, full.
  destruct (nth_error (repeat _ _) y) as [row|] eqn:Hrow; [|discriminate].
  apply nth_error_In, repeat_spec in Hrow. subst row.
  intros H. apply nth_error_In, repeat_spec in H. discriminate.
Qed.

Lemma shape_of_lengths (a b : ndarray2) :
  map (@length bool) a = map (@length bool) b -> shape a = shape b.
Proof.
  intros H. unfold shape.
  assert (Hl : length a = length b).
  { rewrite <- (length_map (@length bool) a), H. apply length_map. }
  rewrite Hl. destruct a as [|ra ta], b as [|rb tb]; try discriminate; [reflexivity|].
  simpl in *. inversion H. congruence.
Qed.

Lemma shape_full (v : bool) (a : ndarray2) : shape (full v (shape a)) = shape a.
Proof.
  unfold full, shape. simpl. rewrite !Nat2Z.id, repeat_length.
  destruct a as [|r t]; simpl; [reflexivity|].
  rewrite repeat_length. reflexivity.
Qed.

Lemma class_call_plain_array (c : mask_class) (a : ndarray2)
    (ps : option (Q * Q)) (ss : Z) (o : option (option (Q * Q))) (m : mask) :
  class_call c (Plain a) ps ss o = Return m -> array m = a.
Proof.
  assert (Hsub : forall c0 : mask_class,
            AbstractSubMask_new c0 (Plain a) ss = Return m -> array m = a).
  { intros c0. unfold AbstractSubMask_new, AbstractMask_new, __array_finalize__.
    cbn [bind].
    destruct (Double.int_square ss) as [l|e]; cbn [bind]; [|discriminate].
    destruct (Double.one_over l) as [fr|e]; cbn [bind]; [|discriminate].
    intros H. inversion H. reflexivity. }
  unfold class_call. destruct c; try apply Hsub.
  - intros H. inversion H. reflexivity.
  - intros H. inversion H. reflexivity.
  - intros H. apply ScaledMask_new_plain_inv in H.
    destruct H as (l & fr & ->). reflexivity.
Qed.

Lemma derived_mask_array (self : mask) (idx : result (list (nat * nat))) (dm : mask) :
  (i <- idx ;;
   mask0 <- set_all (full true (shape (array self))) i false ;;
   class_call (cls self) (Plain mask0) (pixel_scales self) 1 (Some (origin self)))
  = Return dm ->
  exists i : list (nat * nat),
    idx = Return i /\
    shape (array dm) = shape (array self) /\
    forall y x : nat, get_nat (array dm) y x = Some false <-> In (y, x) i.
Proof.
  destruct idx as [i|e]; simpl; [|discriminate].
  destruct (set_all _ i false) as [mask0|e] eqn:S; simpl; [|discriminate].
  intros H. apply class_call_plain_array in H. subst mask0.
  destruct (set_all_spec _ _ _ S) as [Hlen Hget].
  exists i. split; [reflexivity|]. split.
  - rewrite (shape_of_lengths _ _ Hlen). apply shape_full.
  - intros y x. rewrite Hget. split; [|tauto].
    intros [H|H]; [|assumption]. exfalso. exact (full_true_get_nat _ _ _ H).
Qed.

(** Whatever the class of the mask and whatever index helpers are used, a
    mask returned by [edge_mask] (or [border_mask]) has the shape of its
    parent and is unmasked exactly at the 2D edge (or border) indexes. *)
Theorem derived_masks_unmask_their_indexes
    (edge_util border_util : ndarray2 -> list nat)
    (index_util : ndarray2 -> Z -> list (nat * nat)) (self : mask) :
  (forall em : mask, edge_mask edge_util index_util self = Return em ->
     exists idx : list (nat * nat),
       _edge_2d_indexes edge_util index_util self = Return idx /\
       shape (array em) = shape (array self) /\
       forall y x : nat, get_nat (array em) y x = Some false <-> In (y, x) idx) /\
  (forall bm : mask, border_mask border_util index_util self = Return bm ->
     exists idx : list (nat * nat),
       _border_2d_indexes border_util index_util self = Return idx /\
       shape (array bm) = shape (array self) /\
       forall y x : nat, get_nat (array bm) y x = Some false <-> In (y, x) idx).
Proof.
  split; intros dm H; apply (derived_mask_array self _ dm H).
Qed.

Lemma derived_masks_unmask_their_indexes_witness :
  exists idx : list (nat * nat),
    _edge_2d_indexes SpecModel.edge_1d_indexes_from_mask
      SpecModel.sub_mask_2d_index_for_sub_mask_1d_index_from_mask_and_sub_size
      Examples.column_mask = Return idx /\
    shape [[true; false; true]; [true; false; true]; [true; true; true]]
    = shape (array Examples.column_mask) /\
    forall y x : nat,
      get_nat [[true; false; true]; [true; false; true]; [true; true; true]] y x
      = Some false <-> In (y, x) idx.
Proof.
  apply (proj1 (derived_masks_unmask_their_indexes
                  SpecModel.edge_1d_indexes_from_mask
                  SpecModel.border_1d_indexes_from_mask
                  SpecModel.sub_mask_2d_index_for_sub_mask_1d_index_from_mask_and_sub_size
                  Examples.column_mask)
           (mkMask ScaledMask
              [[true; false; true]; [true; false; true]; [true; true; true]]
              (Some (1, 1)%Q) (Some 1) (Some (1 * 1))
              (Some (1 / inject_Z (1 * 1))%Q) (Some (0, 0)%Q))).
  reflexivity.
Defined.

(** ** Kernels *)


Section KernelFacts.

Variable rescale : Kernel.array2 -> Q -> Kernel.array2.
Variable resize : Kernel.array2 -> Z * Z -> Kernel.array2.
Variable convolve2d : Kernel.array2 -> Kernel.array2 -> Kernel.array2.
Variable K : Type.
Variable manual : Kernel.array2 -> Q * Q -> bool -> K.

(** [resize] returns an array of the shape it is asked for. *)
Hypothesis resize_shape :
  forall (a : Kernel.array2) (h w : Z), 0 < h -> 0 < w ->
    Kernel.shape2 (resize a (h, w)) = (h, w).

Lemma with_odd_dimensions_shape (a : Kernel.array2) :
  Z.odd (fst (Kernel.shape2 (Kernel.with_odd_dimensions resize a))) = true /\
  Z.odd (snd (Kernel.shape2 (Kernel.with_odd_dimensions resize a))) = true /\
  fst (Kernel.shape2 a) <= fst (Kernel.shape2 (Kernel.with_odd_dimensions resize a))
    <= fst (Kernel.shape2 a) + 1 /\
  snd (Kernel.shape2 a) <= snd (Kernel.shape2 (Kernel.with_odd_dimensions resize a))
    <= snd (Kernel.shape2 a) + 1.
Proof.
  unfold Kernel.with_odd_dimensions.
  assert (Hh : 0 <= fst (Kernel.shape2 a)) by (unfold Kernel.shape2; simpl; lia).
  assert (Hw : 0 <= snd (Kernel.shape2 a)) by (unfold Kernel.shape2; simpl; lia).
  destruct (Kernel.shape2 a) as [h w] eqn:Es. cbn [fst snd] in *.
  rewrite !mod2_even.
  assert (Hh0 : Z.even h = false -> 0 < h).
  { intros E. destruct (Z.eq_dec h 0); [subst; discriminate|lia]. }
  assert (Hw0 : Z.even w = false -> 0 < w).
  { intros E. destruct (Z.eq_dec w 0); [subst; discriminate|lia]. }
  destruct (Z.even h) eqn:Eh; destruct (Z.even w) eqn:Ew; cbn [andb negb];
    rewrite ?resize_shape by auto with zarith; rewrite ?Es; cbn [fst snd];
    rewrite <- ?Z.negb_even, ?Z.add_1_r, ?Z.even_succ, <- ?Z.negb_even, ?Eh, ?Ew;
    repeat split; try reflexivity; lia.
Qed.


(** [convolved_array_from_array] raises the [KernelException] exactly when
    a dimension of the kernel's mask is even, and convolves otherwise; a
    kernel whose mask has the shape that the odd-dimension resizing produces
    is always convolved. *)
Theorem convolution_requires_odd_kernel (self : Kernel.kernel)
    (array_in_2d : Kernel.array2) :
  (Z.even (fst (Kernel.mask_shape self)) = true \/
   Z.even (snd (Kernel.mask_shape self)) = true ->
   Kernel.convolved_array_from_array convolve2d self array_in_2d
   = inl (Kernel.KernelException Kernel.odd_msg)) /\
  (Z.odd (fst (Kernel.mask_shape self)) = true ->
   Z.odd (snd (Kernel.mask_shape self)) = true ->
   Kernel.convolved_array_from_array convolve2d self array_in_2d
   = inr (convolve2d array_in_2d (Kernel.in_2d self))) /\
  (forall a : Kernel.array2,
     Kernel.mask_shape self
     = Kernel.shape2 (Kernel.with_odd_dimensions resize a) ->
     Kernel.convolved_array_from_array convolve2d self array_in_2d
     = inr (convolve2d array_in_2d (Kernel.in_2d self))).
Proof.
  unfold Kernel.convolved_array_from_array. rewrite !mod2_even.
  assert (Hodd : Z.odd (fst (Kernel.mask_shape self)) = true ->
                 Z.odd (snd (Kernel.mask_shape self)) = true ->
                 (if Z.even (fst (Kernel.mask_shape self))
                     || Z.even (snd (Kernel.mask_shape self))
                  then inl (Kernel.KernelException Kernel.odd_msg)
                  else inr (convolve2d array_in_2d (Kernel.in_2d self)))
                 = inr (convolve2d array_in_2d (Kernel.in_2d self))).
  { intros Hh Hw. rewrite <- Z.negb_even in Hh, Hw.
    apply negb_true_iff in Hh, Hw. rewrite Hh, Hw. reflexivity. }
  split; [|split].
  - intros [H|H]; rewrite H; [reflexivity|]. rewrite orb_true_r. reflexivity.
  - exact Hodd.
  - intros a Ha. destruct (with_odd_dimensions_shape a) as (Hoh & How & _).
    apply Hodd; rewrite Ha; assumption.
Qed.

End KernelFacts.

Lemma pad_to_shape (a : Kernel.array2) (h w : Z) :
  0 < h -> 0 < w -> Kernel.shape2 (KernelExamples.pad_to a (h, w)) = (h, w).
Proof.
  intros Hh Hw. unfold Kernel.shape2, KernelExamples.pad_to. simpl fst. simpl snd.
  rewrite length_map, length_seq.
  destruct (Z.to_nat h) as [|n] eqn:E; [lia|].
  simpl. rewrite length_map, length_seq. f_equal; lia.
Qed.


Lemma convolution_requires_odd_kernel_witness :
  Kernel.convolved_array_from_array KernelExamples.add_all
    KernelExamples.even_kernel [[1]]%Q
  = inl (Kernel.KernelException Kernel.odd_msg) /\
  Kernel.convolved_array_from_array KernelExamples.add_all
    KernelExamples.odd_kernel [[1]]%Q
  = inr (KernelExamples.add_all [[1]]%Q (Kernel.in_2d KernelExamples.odd_kernel)).
Proof.
  split.
  - apply (proj1 (convolution_requires_odd_kernel
                    KernelExamples.pad_to KernelExamples.add_all pad_to_shape
                    KernelExamples.even_kernel [[1]]%Q)).
    left. reflexivity.
  - apply (proj1 (proj2 (convolution_requires_odd_kernel
                           KernelExamples.pad_to KernelExamples.add_all pad_to_shape
                           KernelExamples.odd_kernel [[1]]%Q))); reflexivity.
Defined.


(** ** The cache decorator *)

Section CacheFacts.

Variables I G V : Type.
Variable tobytes : G -> list Byte.byte.
Variable func : Decorators.instance I V -> G -> V * Decorators.instance I V.
Variable func_name : string.

Lemma key_eqb_eq (k1 k2 : Decorators.key) :
  Decorators.key_eqb k1 k2 = true <-> k1 = k2.
Proof.
  unfold Decorators.key_eqb. destruct k1 as [n1 b1], k2 as [n2 b2]. simpl.
  destruct (string_dec n1 n2); [destruct (list_eq_dec Byte.byte_eq_dec b1 b2)|];
    split; intros H; try discriminate; try congruence.
Qed.

Lemma key_eqb_refl (k : Decorators.key) : Decorators.key_eqb k k = true.
Proof. apply key_eqb_eq. reflexivity. Qed.

Lemma dict_get_set (k k' : Decorators.key) (v : V) (d : Decorators.dict V) :
  Decorators.dict_get V k' (Decorators.dict_set V k v d)
  = if Decorators.key_eqb k' k then Some v else Decorators.dict_get V k' d.
Proof.
  induction d as [|[k0 v0] t IH]; simpl.
  - destruct (Decorators.key_eqb k' k); reflexivity.
  - destruct (Decorators.key_eqb k k0) eqn:E; simpl.
    + apply key_eqb_eq in E. subst k0.
      destruct (Decorators.key_eqb k' k); reflexivity.
    + destruct (Decorators.key_eqb k' k0) eqn:E'; [|exact IH].
      apply key_eqb_eq in E'. subst k0.
      destruct (Decorators.key_eqb k' k) eqn:E''; [|reflexivity].
      apply key_eqb_eq in E''. subst k'. rewrite key_eqb_refl in E. discriminate.
Qed.

(** What a call returns: the cached value and the instance with its cache
    in place on a hit; on a miss the value of [func] and the instance as
    [func] left it, with the value stored under the key. *)
Lemma wrapper_hit (inst : Decorators.instance I V) (g : G) (d : Decorators.dict V)
    (v : V) :
  Decorators.cache_attr I V inst = Some d ->
  Decorators.dict_get V (func_name, tobytes g) d = Some v ->
  Decorators.wrapper I G V tobytes func func_name inst g = Return (v, inst).
Proof.
  intros Hd Hv. unfold Decorators.wrapper. rewrite Hd, Hv.
  destruct inst as [dt c]. simpl in Hd. subst c. reflexivity.
Qed.

Lemma wrapper_returns (inst : Decorators.instance I V) (g : G) (v : V)
    (inst1 : Decorators.instance I V) :
  Decorators.wrapper I G V tobytes func func_name inst g = Return (v, inst1) ->
  exists d : Decorators.dict V,
    Decorators.cache_attr I V inst1 = Some d /\
    Decorators.dict_get V (func_name, tobytes g) d = Some v.
Proof.
  unfold Decorators.wrapper.
  set (d0 := match Decorators.cache_attr I V inst with
             | Some d => d
             | None => []
             end).
  destruct (Decorators.dict_get V (func_name, tobytes g) d0) as [v0|] eqn:E.
  - intros H. inversion H; subst. exists d0. auto.
  - destruct (func _ g) as [v1 inst2].
    destruct (Decorators.cache_attr I V inst2) as [d1|]; [|discriminate].
    intros H. inversion H; subst. eexists. split; [reflexivity|].
    rewrite dict_get_set, key_eqb_refl. reflexivity.
Qed.

(** A call of the cached function that returns leaves its result in the
    cache, and a second call for any grid with the same bytes (the same
    grid, or another grid whose bytes coincide) returns that result without
    changing the instance again; a value already in the cache is returned as
    it is, and the instance is left as it was. *)
Theorem cached_call_is_reused (inst : Decorators.instance I V) (g g' : G) :
  tobytes g' = tobytes g ->
  (forall (v : V) (inst1 : Decorators.instance I V),
     Decorators.wrapper I G V tobytes func func_name inst g = Return (v, inst1) ->
     Decorators.wrapper I G V tobytes func func_name inst1 g' = Return (v, inst1) /\
     exists d : Decorators.dict V,
       Decorators.cache_attr I V inst1 = Some d /\
       Decorators.dict_get V (func_name, tobytes g) d = Some v) /\
  (forall (d : Decorators.dict V) (v : V),
     Decorators.cache_attr I V inst = Some d ->
     Decorators.dict_get V (func_name, tobytes g) d = Some v ->
     Decorators.wrapper I G V tobytes func func_name inst g = Return (v, inst)).
Proof.
  intros Hb. split.
  - intros v inst1 H. destruct (wrapper_returns _ _ _ _ H) as (d & Hd & Hv).
    split; [|exists d; auto].
    apply (wrapper_hit inst1 g' d v Hd). rewrite Hb. exact Hv.
  - intros d v. apply wrapper_hit.
Qed.

(** A call of the cached function changes the instance only through [func]
    and through the entry of its own key.  On a hit [func] is not called and
    the instance keeps its data and its cache.  On a miss the instance is the
    one [func] left, with the value stored under the key: the entries of
    every other key are as [func] left them, and so is the data; when [func]
    has removed the cache the call fails with [AttributeError].  For a
    [func] that leaves the instance alone, the entries of every other
    function name and of every other byte string are as before the call. *)
Theorem cached_call_keeps_other_entries (inst : Decorators.instance I V) (g : G)
    (k : Decorators.key) :
  k <> (func_name, tobytes g) ->
  let d0 := match Decorators.cache_attr I V inst with
            | Some d => d
            | None => []
            end in
  let inst0 := Decorators.mkInstance I V (Decorators.data I V inst) (Some d0) in
  (forall v : V,
     Decorators.dict_get V (func_name, tobytes g) d0 = Some v ->
     Decorators.wrapper I G V tobytes func func_name inst g = Return (v, inst0)) /\
  (Decorators.dict_get V (func_name, tobytes g) d0 = None ->
   (forall d1 : Decorators.dict V,
      Decorators.cache_attr I V (snd (func inst0 g)) = Some d1 ->
      exists d : Decorators.dict V,
        Decorators.wrapper I G V tobytes func func_name inst g
        = Return (fst (func inst0 g),
                  Decorators.mkInstance I V
                    (Decorators.data I V (snd (func inst0 g))) (Some d)) /\
        Decorators.dict_get V k d = Decorators.dict_get V k d1 /\
        Decorators.dict_get V (func_name, tobytes g) d = Some (fst (func inst0 g))) /\
   (Decorators.cache_attr I V (snd (func inst0 g)) = None ->
    Decorators.wrapper I G V tobytes func func_name inst g = Raise AttributeError) /\
   (snd (func inst0 g) = inst0 ->
    exists d : Decorators.dict V,
      Decorators.wrapper I G V tobytes func func_name inst g
      = Return (fst (func inst0 g),
                Decorators.mkInstance I V (Decorators.data I V inst) (Some d)) /\
      Decorators.dict_get V k d = Decorators.dict_get V k d0)).
Proof.
  intros Hk d0 inst0.
  assert (Hne : Decorators.key_eqb k (func_name, tobytes g) = false).
  { destruct (Decorators.key_eqb k (func_name, tobytes g)) eqn:E; [|reflexivity].
    apply key_eqb_eq in E. contradiction. }
  split.
  - intros v Hv. unfold Decorators.wrapper. fold d0. rewrite Hv. reflexivity.
  - intros Hmiss.
    assert (Hrun : forall d1 : Decorators.dict V,
              Decorators.cache_attr I V (snd (func inst0 g)) = Some d1 ->
              Decorators.wrapper I G V tobytes func func_name inst g
              = Return (fst (func inst0 g),
                        Decorators.mkInstance I V
                          (Decorators.data I V (snd (func inst0 g)))
                          (Some (Decorators.dict_set V (func_name, tobytes g)
                                   (fst (func inst0 g)) d1)))).
    { intros d1 Hd1. unfold Decorators.wrapper. fold d0. rewrite Hmiss. fold inst0.
      destruct (func inst0 g) as [v inst1]. cbn [fst snd] in *. rewrite Hd1.
      reflexivity. }
    split; [|split].
    + intros d1 Hd1. eexists. split; [apply Hrun; exact Hd1|].
      rewrite !dict_get_set, Hne, key_eqb_refl. auto.
    + intros Hnone. unfold Decorators.wrapper. fold d0. rewrite Hmiss. fold inst0.
      destruct (func inst0 g) as [v inst1]. cbn [fst snd] in *. rewrite Hnone.
      reflexivity.
    + intros Hsame. eexists. split.
      * rewrite (Hrun d0) by (rewrite Hsame; reflexivity).
        rewrite Hsame. reflexivity.
      * rewrite dict_get_set, Hne. reflexivity.
Qed.

End CacheFacts.

Lemma cached_call_is_reused_witness :
  Decorators.wrapper Z CacheExamples.grid Z CacheExamples.grid_tobytes
    CacheExamples.rows_of "rows_of"
    (Decorators.mkInstance Z Z 1
       (Some [(("rows_of"%string, CacheExamples.grid_tobytes CacheExamples.tall), 3)]))
    CacheExamples.wide
  = Return (3, Decorators.mkInstance Z Z 1
                 (Some [(("rows_of"%string,
                          CacheExamples.grid_tobytes CacheExamples.tall), 3)])).
Proof.
  apply (proj1 (cached_call_is_reused Z CacheExamples.grid Z
                  CacheExamples.grid_tobytes CacheExamples.rows_of "rows_of"
                  CacheExamples.fresh CacheExamples.tall CacheExamples.wide
                  eq_refl) 3).
  reflexivity.
Defined.

Lemma cached_call_keeps_other_entries_witness :
  exists d : Decorators.dict Z,
    Decorators.wrapper Z CacheExamples.grid Z CacheExamples.grid_tobytes
      CacheExamples.rows_noting_columns "rows_of" CacheExamples.fresh
      CacheExamples.tall
    = Return (3, Decorators.mkInstance Z Z 0 (Some d)) /\
    Decorators.dict_get Z ("columns_of"%string,
                           CacheExamples.grid_tobytes CacheExamples.tall) d
    = Some 2 /\
    Decorators.dict_get Z ("rows_of"%string,
                           CacheExamples.grid_tobytes CacheExamples.tall) d
    = Some 3.
Proof.
  apply (proj1 (proj2 (cached_call_keeps_other_entries Z CacheExamples.grid Z
                         CacheExamples.grid_tobytes CacheExamples.rows_noting_columns
                         "rows_of" CacheExamples.fresh CacheExamples.tall
                         ("columns_of"%string,
                          CacheExamples.grid_tobytes CacheExamples.tall)
                         ltac:(discriminate))
                 eq_refl)
           [(("columns_of"%string, CacheExamples.grid_tobytes CacheExamples.tall), 2)]).
  reflexivity.
Defined.

(** ** Masks derived from a Scaled Mask *)



